(** * The SDC plugin commands of [sdc-plugin/sdc.cc]

    A shallow embedding of the Tcl commands [create_clock], [get_clocks] and
    [propagate_clocks] together with the Tcl dispatcher that registers them,
    and the properties the specification states about them.

    The commands live in a host (Yosys) whose design data base they read and
    whose selection they consult; they call into [clocks.h] and
    [propagation.h], which are separate compilation units.  The host's opaque
    services and the clock library are interfaces here ([Host], [ClocksLib]);
    the commands themselves are transcribed statement by statement. *)

From Stdlib Require Import ZArith Ascii.
From Stdlib.Floats Require Import SpecFloat.
From stdpp Require Import base strings list gmap.

Set Default Proof Using "Type".

(** ** Strings *)

(** The line feed that ends every log and error message of the source. *)
Definition nl : string := String (Ascii.ascii_of_nat 10) "".

(** ** Single precision floats

    [float] in the source is IEEE 754 binary32: 24 bits of precision and a
    largest exponent of 128, over the Standard Library's specification of
    floating point numbers. *)
Module Float32.

Definition float : Type := spec_float.

Definition prec : Z := 24.
Definition emax : Z := 128.

(** [float x(0)] and the conversion of the [int] literals [0] and [2]. *)
Definition zero : float := S754_zero false.
Definition two : float := S754_finite false 8388608 (-22).

(** The binary32 values of [5.0] and [10.0]. *)
Definition five : float := S754_finite false 10485760 (-21).
Definition ten : float := S754_finite false 10485760 (-20).

Definition div (x y : float) : float := SFdiv prec emax x y.
Definition mul (x y : float) : float := SFmul prec emax x y.

(** [x <= y]; false as soon as one side is a NaN. *)
Definition leb (x y : float) : bool := SFleb x y.
Definition eqb (x y : float) : bool := SFeqb x y.

(** The conversion of a positive [int] to [float] (round to nearest). *)
Definition of_pos (p : positive) : float :=
  binary_normalize prec emax (Z.pos p) 0 false.

#[global] Instance float_eq_dec : EqDecision float.
Proof. solve_decision. Defined.

End Float32.

Abbreviation float := Float32.float.

(** ** Exceptions, log and Tcl objects *)

(** [log_cmd_error] raises [log_cmd_error_exception] carrying its message;
    the standard library raises subclasses of [std::exception]. *)
Inductive Exception : Type :=
| log_cmd_error_exception (msg : string)
| std_exception (what : string).

#[global] Instance Exception_eq_dec : EqDecision Exception.
Proof. solve_decision. Defined.

(** Outcome of a call that may throw. *)
Inductive Outcome (A : Type) : Type :=
| Done (a : A)
| Thrown (e : Exception).
Arguments Done {A} a.
Arguments Thrown {A} e.

(** What [log] and [log_warning] append to the log. *)
Inductive LogEntry : Type :=
| Log (msg : string)
| Warning (msg : string).

#[global] Instance LogEntry_eq_dec : EqDecision LogEntry.
Proof. solve_decision. Defined.

(** The two shapes of Tcl objects the commands build: [Tcl_NewStringObj] and
    [Tcl_NewListObj] filled by [Tcl_ListObjAppendElement]. *)
Inductive Tcl_Obj : Type :=
| Tcl_StringObj (s : string)
| Tcl_ListObj (elems : list string).

#[global] Instance Tcl_Obj_eq_dec : EqDecision Tcl_Obj.
Proof. solve_decision. Defined.

(** ** The design data base, as the commands see it

    [kernel/rtlil.h] belongs to the host.  The records keep the members the
    commands touch; the selection predicates and [select] follow the host's
    inline definitions. *)
Module RTLIL.

(** [RTLIL::Wire]: [name] is an [IdString], kept with its escape
    character; [port_id] is non-zero on module ports. *)
Record Wire : Type := mkWire {
  wire_name : string;
  port_id : Z
}.

(** Modelled from the spec: the cell instances of a module are read by
    [propagation.h] only, which is not part of the sources.  Section 6 asks
    of the graph a classification of each instance as clock-transparent,
    clock-dividing (with its fixed divisor) or ordinary, and its fan-in and
    fan-out; a cell has one input and one output node, given by wire name. *)
Inductive ElementKind : Type :=
| Transparent
| Divider (divisor : positive)
| Ordinary.

Record Cell : Type := mkCell {
  cell_name : string;
  cell_kind : ElementKind;
  cell_input : string;
  cell_output : string
}.

(** [RTLIL::Module], with its wires in the order [wires()] yields them. *)
Record Module_ : Type := mkModule {
  module_name : string;
  wires_ : list Wire;
  cells_ : list Cell
}.

(** [RTLIL::Selection]. *)
Record Selection : Type := mkSelection {
  full_selection : bool;
  selected_modules : gset string;
  selected_members : gmap string (gset string)
}.

(** [RTLIL::Design]; the back of [selection_stack] is the last element. *)
Record Design : Type := mkDesign {
  modules_ : list Module_;
  selection_stack : list Selection;
  selected_active_module : string
}.

#[global] Instance Wire_eq_dec : EqDecision Wire.
Proof. solve_decision. Defined.

#[global] Instance ElementKind_eq_dec : EqDecision ElementKind.
Proof. solve_decision. Defined.

#[global] Instance Cell_eq_dec : EqDecision Cell.
Proof. solve_decision. Defined.

#[global] Instance Module_eq_dec : EqDecision Module_.
Proof. solve_decision. Defined.

#[global] Instance Selection_eq_dec : EqDecision Selection.
Proof. solve_decision. Defined.

#[global] Instance Design_eq_dec : EqDecision Design.
Proof. solve_decision. Defined.

Definition Selection_selected_module (sel : Selection) (mod_name : string) : bool :=
  full_selection sel
  || bool_decide (mod_name ∈ selected_modules sel)
  || bool_decide (is_Some (selected_members sel !! mod_name)).

Definition Selection_selected_member (sel : Selection) (mod_name memb_name : string) : bool :=
  full_selection sel
  || bool_decide (mod_name ∈ selected_modules sel)
  || match selected_members sel !! mod_name with
     | Some members => bool_decide (memb_name ∈ members)
     | None => false
     end.

(** [design->selected(module)]. *)
Definition selected_module (d : Design) (m : Module_) : bool :=
  if negb (bool_decide (selected_active_module d = ""))
     && negb (bool_decide (module_name m = selected_active_module d))
  then false
  else match last (selection_stack d) with
       | None => true
       | Some sel => Selection_selected_module sel (module_name m)
       end.

(** [design->selected(module, wire)]. *)
Definition selected_member (d : Design) (m : Module_) (w : Wire) : bool :=
  if negb (bool_decide (selected_active_module d = ""))
     && negb (bool_decide (module_name m = selected_active_module d))
  then false
  else match last (selection_stack d) with
       | None => true
       | Some sel => Selection_selected_member sel (module_name m) (wire_name w)
       end.

(** [sel.select(module, member)]. *)
Definition Selection_select (sel : Selection) (mod_name memb_name : string) : Selection :=
  if negb (full_selection sel) && negb (bool_decide (mod_name ∈ selected_modules sel))
  then {| full_selection := full_selection sel;
          selected_modules := selected_modules sel;
          selected_members :=
            <[mod_name := {[memb_name]} ∪ default ∅ (selected_members sel !! mod_name)]>
              (selected_members sel) |}
  else sel.

(** [design->select(module, wire)]: acts on the back of the stack, and
    does nothing on an empty stack. *)
Definition select (d : Design) (m : Module_) (w : Wire) : Design :=
  match last (selection_stack d) with
  | None => d
  | Some sel =>
      {| modules_ := modules_ d;
         selection_stack :=
           removelast (selection_stack d)
             ++ [Selection_select sel (module_name m) (wire_name w)];
         selected_active_module := selected_active_module d |}
  end.

End RTLIL.

Import RTLIL.

(** ** The clock library and the host services

    [clocks.h] and [propagation.h] are separate compilation units: the
    commands reach them only through the calls below. *)

(** Modelled from the spec: the enumeration [Clock::ClockType] is declared
    in [clocks.h]; section 3 lists its three kinds. *)
Inductive ClockType : Type := EXPLICIT | GENERATED | PROPAGATED.

#[global] Instance ClockType_eq_dec : EqDecision ClockType.
Proof. solve_decision. Defined.

(** The two implementations of the abstract class [Propagation] that
    [propagate_clocks] instantiates, and an instance built by
    [new C(design, this)]. *)
Inductive PropagationClass : Type := BufferPropagation | ClockDividerPropagation.

#[global] Instance PropagationClass_eq_dec : EqDecision PropagationClass.
Proof. solve_decision. Defined.

Record Propagation : Type := new_Propagation {
  pass_class : PropagationClass;
  pass_design : Design
}.

(** Modelled from the spec: the operations of [clocks.h] and
    [propagation.h] that the commands call are parameters.  Sections 2 and
    5 have the core read the graph and write only its own registries, so
    each operation acts on the state [R] that the library owns and takes
    the design as an input. *)
Class ClocksLib (R : Type) : Type := {
  Clock_Add : string -> list Wire -> float -> float -> float -> ClockType -> R -> Outcome R;
  Clocks_GetClocks : Design -> R -> list (string * Wire);
  Propagation_Run : Propagation -> R -> Outcome R;
  Clocks_UpdateAbc9DelayTarget : Design -> R -> Outcome R
}.

(** The services of the host and of the C++ and Tcl libraries that the
    commands use as black boxes. [Clocks_GetClocks] above returns a
    [std::map]: the list holds its entries in iteration order. *)
Class Host : Type := {
  (** [design->top_module()] *)
  top_module : Design -> option Module_;
  (** [Pass::extra_args(args, argidx, design)]: evaluates the remaining
      arguments as a selection *)
  extra_args : list string -> nat -> Design -> Outcome Design;
  (** [RTLIL::id2cstr] and [RTLIL::unescape_id] *)
  id2cstr : string -> string;
  unescape_id : string -> string;
  (** [std::stof] *)
  stof : string -> Outcome float;
  (** [operator>>(float&)] on a stream holding the given characters: the
      value stored, whether the extraction succeeded, the characters left *)
  extract_float : string -> float * bool * string;
  (** [Tcl_GetString] *)
  Tcl_GetString : Tcl_Obj -> string
}.

(** A call into the clock library, as recorded in the session. *)
Inductive Call : Type :=
| Call_Clock_Add (name : string) (wires : list Wire)
                 (period rising_edge falling_edge : float) (type : ClockType)
| Call_Clocks_GetClocks
| Call_Run (c : PropagationClass)
| Call_UpdateAbc9DelayTarget.

#[global] Instance Call_eq_dec : EqDecision Call.
Proof. solve_decision. Defined.

(** ** Sessions

    Everything a command can read or change: the design, the state of the
    clock library, the static map of [GetClocksCmd], the result object of
    the Tcl interpreter ([None] when [yosys_get_tcl_interp] returns null),
    the log, and the calls made into the clock library so far. *)
Record Session (R : Type) : Type := mkSession {
  design : Design;
  clocks_state : R;
  logical_to_wire_map : gmap string string;
  tcl_interp : option Tcl_Obj;
  log_output : list LogEntry;
  calls : list Call
}.
Arguments mkSession {R}.
Arguments design {R}.
Arguments clocks_state {R}.
Arguments logical_to_wire_map {R}.
Arguments tcl_interp {R}.
Arguments log_output {R}.
Arguments calls {R}.

Section Commands.

Context `{host : Host} {R : Type} `{lib : !ClocksLib R}.

Local Abbreviation Session := (Session R).

(** *** The monad of commands: state and exceptions

    A thrown exception keeps the state reached so far. *)
Definition Cmd (A : Type) : Type := Session -> Session * Outcome A.

Definition ret {A} (a : A) : Cmd A := fun s => (s, Done a).

Definition bind {A B} (m : Cmd A) (k : A -> Cmd B) : Cmd B :=
  fun s => match m s with
           | (s', Done a) => k a s'
           | (s', Thrown e) => (s', Thrown e)
           end.

Definition throw {A} (e : Exception) : Cmd A := fun s => (s, Thrown e).

Definition gets {A} (f : Session -> A) : Cmd A := fun s => (s, Done (f s)).

Definition modify (f : Session -> Session) : Cmd unit := fun s => (f s, Done tt).

Definition when_ (b : bool) (m : Cmd unit) : Cmd unit := if b then m else ret tt.

Definition lift {A} (o : Outcome A) : Cmd A :=
  match o with Done a => ret a | Thrown e => throw e end.

Definition set_design (d : Design) (s : Session) : Session :=
  mkSession d (clocks_state s) (logical_to_wire_map s) (tcl_interp s)
            (log_output s) (calls s).

Definition set_clocks_state (r : R) (s : Session) : Session :=
  mkSession (design s) r (logical_to_wire_map s) (tcl_interp s)
            (log_output s) (calls s).

Definition set_logical_to_wire_map (m : gmap string string) (s : Session) : Session :=
  mkSession (design s) (clocks_state s) m (tcl_interp s) (log_output s) (calls s).

Definition set_tcl_interp (o : option Tcl_Obj) (s : Session) : Session :=
  mkSession (design s) (clocks_state s) (logical_to_wire_map s) o
            (log_output s) (calls s).

Definition add_log (e : LogEntry) (s : Session) : Session :=
  mkSession (design s) (clocks_state s) (logical_to_wire_map s) (tcl_interp s)
            (log_output s ++ [e]) (calls s).

Definition add_call (c : Call) (s : Session) : Session :=
  mkSession (design s) (clocks_state s) (logical_to_wire_map s) (tcl_interp s)
            (log_output s) (calls s ++ [c]).

(** [log], [log_warning] and [log_cmd_error] of [kernel/log.h]. *)
Definition log (msg : string) : Cmd unit := modify (add_log (Log msg)).
Definition log_warning (msg : string) : Cmd unit := modify (add_log (Warning msg)).
Definition log_cmd_error {A} (msg : string) : Cmd A := throw (log_cmd_error_exception msg).

(** A call into the clock library: the call is recorded, then the library
    acts on its own state or throws.  What a call that throws has done to
    that state cannot be read off its result: the session keeps the state
    from before the call, and no property below tells what the state of
    the library is after one of its calls has thrown. *)
Definition call_lib (c : Call) (f : R -> Outcome R) : Cmd unit :=
  fun s =>
    let s := add_call c s in
    match f (clocks_state s) with
    | Done r => (set_clocks_state r s, Done tt)
    | Thrown e => (s, Thrown e)
    end.

Declare Scope cmd_scope.
Delimit Scope cmd_scope with cmd.
Bind Scope cmd_scope with Cmd.

Notation "'let*' x ':=' c1 'in' c2" := (bind c1 (fun x => c2))
  (at level 10, x pattern, c1 at level 100, c2 at level 200) : cmd_scope.
Notation "c1 ;; c2" := (bind c1 (fun _ => c2))
  (at level 100, c2 at level 200, right associativity) : cmd_scope.

Local Open Scope cmd_scope.

(** *** [CreateClockCmd] *)

(** The local variables of [CreateClockCmd::execute] that the option loop
    sets, with [argidx]. *)
Record CreateClockLocals : Type := mkLocals {
  argidx : nat;
  name : string;
  is_waveform_specified : bool;
  rising_edge : float;
  falling_edge : float;
  period : float
}.

(** Their values when the loop starts: [argidx = 1], an empty [name],
    [rising_edge(0)], [falling_edge(0)], [period(0)]. *)
Definition initial_locals : CreateClockLocals :=
  mkLocals 1 "" false Float32.zero Float32.zero Float32.zero.

(** The lambda handed to [std::copy_if] for a waveform. *)
Definition waveform_pred (c : Ascii.ascii) : bool :=
  negb (bool_decide (c = "{"%char)) || negb (bool_decide (c = "}"%char)).

(** [std::copy_if(s.begin(), s.end(), s.begin(), pred)]: the kept
    characters are written from the front, the length does not change. *)
Definition copy_if_in_place (pred : Ascii.ascii -> bool) (s : string) : string :=
  let chars := String.list_ascii_of_string s in
  let kept := List.filter pred chars in
  String.string_of_list_ascii (kept ++ drop (length kept) chars).

(** [std::isspace] in the "C" locale: what [operator>>] skips. *)
Definition isspace (c : Ascii.ascii) : bool :=
  let n := Ascii.nat_of_ascii c in
  (n =? 32) || ((9 <=? n) && (n <=? 13)).

(** The sentry of a formatted extraction skips white space and fails when
    nothing but white space is left on the stream. *)
Definition at_end (str : string) : bool :=
  forallb isspace (String.list_ascii_of_string str).

(** [ss >> rising_edge >> falling_edge].  An extraction whose sentry fails,
    at the end of the stream or on a stream that has failed, leaves its
    variable as it is; one that starts stores the value [extract_float]
    gives, also when it fails. *)
Definition read_waveform (edges : string) (l : CreateClockLocals) : CreateClockLocals :=
  if at_end edges
  then mkLocals (argidx l) (name l) true (rising_edge l) (falling_edge l) (period l)
  else
    let '(r, ok, rest) := extract_float edges in
    let f := if ok && negb (at_end rest)
             then (extract_float rest).1.1 else falling_edge l in
    mkLocals (argidx l) (name l) true r f (period l).

(** The option loop, on the arguments from [args[argidx]] on.  A
    switch is taken only when an argument follows it
    ([argidx + 1 < args.size()]); anything else ends the loop. *)
Fixpoint parse_create_clock (rest : list string) (l : CreateClockLocals)
  : Outcome CreateClockLocals :=
  match rest with
  | [] => Done l
  | arg :: rest' =>
      match rest' with
      | [] => Done l
      | value :: rest'' =>
          if bool_decide (arg = "-add") then
            parse_create_clock rest'
              (mkLocals (S (argidx l)) (name l) (is_waveform_specified l)
                        (rising_edge l) (falling_edge l) (period l))
          else if bool_decide (arg = "-name") then
            parse_create_clock rest''
              (mkLocals (S (S (argidx l))) value (is_waveform_specified l)
                        (rising_edge l) (falling_edge l) (period l))
          else if bool_decide (arg = "-period") then
            match stof value with
            | Done p =>
                parse_create_clock rest''
                  (mkLocals (S (S (argidx l))) (name l) (is_waveform_specified l)
                            (rising_edge l) (falling_edge l) p)
            | Thrown e => Thrown e
            end
          else if bool_decide (arg = "-waveform") then
            let edges := copy_if_in_place waveform_pred value in
            let l' := read_waveform edges l in
            parse_create_clock rest''
              (mkLocals (S (S (argidx l))) (name l') (is_waveform_specified l')
                        (rising_edge l') (falling_edge l') (period l'))
          else Done l
      end
  end.

(** [AddWirePrefix(args, argidx)]. *)
Definition AddWirePrefix (args : list string) (argidx : nat) : list string :=
  take argidx args ++ List.map (fun w => "w:" +:+ w) (drop argidx args).

(** The first pair of loops: the selected wires of the selected modules.
    The [log] of each wire is compiled only under [SDC_DEBUG], which is not
    defined. *)
Definition selected_wires_of (d : Design) : list Wire :=
  List.flat_map
    (fun module =>
       if selected_module d module
       then List.filter (fun wire => selected_member d module wire) (wires_ module)
       else [])
    (modules_ d).

(** The second pair of loops, run when the first one found nothing: each
    wire of a selected module whose name is the clock name is taken and
    selected at once. *)
Definition auto_select_wire (name : string) (module : Module_)
    (st : Design * list Wire) (wire : Wire) : Design * list Wire :=
  if bool_decide (wire_name wire = name)
  then (select st.1 module wire, st.2 ++ [wire])
  else st.

Definition auto_select_module (name : string)
    (st : Design * list Wire) (module : Module_) : Design * list Wire :=
  if selected_module st.1 module
  then foldl (auto_select_wire name module) st (wires_ module)
  else st.

Definition auto_select (name : string) (d : Design) : Design * list Wire :=
  foldl (auto_select_module name) (d, []) (modules_ d).

(** The wires the second pair of loops looks for, read off the design
    before any of them is selected: the wires of the selected modules that
    bear the clock name. *)
Definition wires_named (name : string) (d : Design) : list Wire :=
  List.flat_map
    (fun module =>
       if selected_module d module
       then List.filter (fun wire => bool_decide (wire_name wire = name)) (wires_ module)
       else [])
    (modules_ d).

(** [CreateClockCmd::execute(args, design)]. *)
Definition CreateClockCmd_execute (args : list string) : Cmd unit :=
  when_ (length args <? 4)
        (log_cmd_error ("Incorrect number of arguments" +:+ nl)) ;;
  let* l := lift (parse_create_clock (drop 1 args) initial_locals) in
  when_ (Float32.leb (period l) Float32.zero)
        (log_cmd_error ("Incorrect period value" +:+ nl)) ;;
  let args := AddWirePrefix args (argidx l) in
  let* d := gets design in
  let* d := lift (extra_args args (argidx l) d) in
  modify (set_design d) ;;
  let selected_wires := selected_wires_of d in
  let* selected_wires :=
    (if bool_decide (selected_wires = [])
     then let '(d', found) := auto_select (name l) d in
          modify (set_design d') ;; ret found
     else ret selected_wires) in
  when_ (length selected_wires =? 0)
        (log_cmd_error ("Target selection is empty" +:+ nl)) ;;
  let* name :=
    (if bool_decide (name l = "")
     then match selected_wires with
          | wire :: _ => ret (unescape_id (wire_name wire))
          | [] => throw (std_exception "vector::at")
          end
     else ret (name l)) in
  let rising_edge := if is_waveform_specified l then rising_edge l else Float32.zero in
  let falling_edge :=
    if is_waveform_specified l then falling_edge l
    else Float32.div (period l) Float32.two in
  call_lib (Call_Clock_Add name selected_wires (period l) rising_edge falling_edge EXPLICIT)
           (Clock_Add name selected_wires (period l) rising_edge falling_edge EXPLICIT).

(** *** [GetClocksCmd] *)

(** Reading a stream word by word with [operator>>(std::string&)]; [cur]
    is the word being read. *)
Fixpoint words (cur : string) (s : string) : list string :=
  match s with
  | EmptyString => if bool_decide (cur = "") then [] else [cur]
  | String c s' =>
      if isspace c
      then (if bool_decide (cur = "") then words "" s' else cur :: words "" s')
      else words (cur +:+ String c "") s'
  end.

(** [GetClocksCmd::extract_list]. *)
Definition extract_list (args : string) : list string := words "" args.

(** The local variables set by the switch loop of [GetClocksCmd::execute]. *)
Record GetClocksLocals : Type := mkGetClocksLocals {
  gc_argidx : nat;
  include_generated_clocks : bool;
  clocks_nets : list string
}.

(** [arg.size() > 0 && arg[0] == '-'] *)
Definition is_switch (arg : string) : bool :=
  match arg with
  | String c _ => bool_decide (c = "-"%char)
  | EmptyString => false
  end.

Fixpoint parse_get_clocks (rest : list string) (l : GetClocksLocals)
  : Outcome GetClocksLocals :=
  match rest with
  | [] => Done l
  | arg :: rest' =>
      if bool_decide (arg = "-include_generated_clocks") then
        parse_get_clocks rest'
          (mkGetClocksLocals (S (gc_argidx l)) true (clocks_nets l))
      else
        let otherwise :=
          if is_switch arg
          then Thrown (log_cmd_error_exception ("Unknown option " +:+ arg +:+ "." +:+ nl))
          else Done l in
        match rest' with
        | value :: rest'' =>
            if bool_decide (arg = "-of") then
              parse_get_clocks rest''
                (mkGetClocksLocals (S (S (gc_argidx l))) (include_generated_clocks l)
                                   (extract_list value))
            else otherwise
        | [] => otherwise
        end
  end.

(** The loop over the clocks: the logical name of each clock whose wire
    name is a key of [logical_to_wire_map] is appended to the Tcl list. *)
Definition append_logical_name (m : gmap string string)
    (tcl_list : list string) (clock : string * Wire) : list string :=
  let wire_name := id2cstr (wire_name clock.2) in
  match m !! wire_name with
  | Some logical_name => tcl_list ++ [logical_name]
  | None => tcl_list
  end.

Definition logical_names (m : gmap string string) (clocks : list (string * Wire))
  : list string :=
  foldl (append_logical_name m) [] clocks.

Fixpoint log_lines (names : list string) : Cmd unit :=
  match names with
  | [] => ret tt
  | clock_name :: names => log (clock_name +:+ nl) ;; log_lines names
  end.

(** [GetClocksCmd::execute(args, design)], called on the design of the
    session, as the Tcl dispatcher does.  That design is never null, so
    the guard on [!design] has no counterpart here;
    [GetClocksCmd_execute_ptr] below has it. *)
Definition GetClocksCmd_execute (args : list string) : Cmd unit :=
  let* l := lift (parse_get_clocks (drop 1 args) (mkGetClocksLocals 1 false [])) in
  let clocks_list := drop (gc_argidx l) args in
  let* d := gets design in
  let* r := gets clocks_state in
  modify (add_call Call_Clocks_GetClocks) ;;
  let clocks := Clocks_GetClocks d r in
  when_ (length clocks =? 0)
        (log_warning ("No clocks found in design" +:+ nl)) ;;
  let* interp := gets tcl_interp in
  when_ (bool_decide (interp = None))
        (log_cmd_error ("Tcl interpreter is not available." +:+ nl)) ;;
  let* m := gets logical_to_wire_map in
  let tcl_list := logical_names m clocks in
  modify (set_tcl_interp (Some (Tcl_ListObj tcl_list))) ;;
  let result_str := Tcl_GetString (Tcl_ListObj tcl_list) in
  log_lines (words "" result_str) ;;
  when_ (length clocks =? 0)
        (log_warning ("No clocks found in design after processing." +:+ nl)).

(** [GetClocksCmd::execute(args, design)] with what the session leaves
    out: the [design] pointer, which may be null, and a [Clocks::GetClocks]
    that may throw.  The exits come in the order of the source: no design,
    an unknown switch, a throw of [Clocks::GetClocks], no interpreter. *)
Definition GetClocksCmd_execute_ptr
    (GetClocks : Design -> R -> Outcome (list (string * Wire)))
    (design_ptr : option Design) (args : list string) : Cmd unit :=
  match design_ptr with
  | None => log_cmd_error ("No design loaded." +:+ nl)
  | Some d =>
      let* l := lift (parse_get_clocks (drop 1 args) (mkGetClocksLocals 1 false [])) in
      let clocks_list := drop (gc_argidx l) args in
      let* r := gets clocks_state in
      modify (add_call Call_Clocks_GetClocks) ;;
      let* clocks := lift (GetClocks d r) in
      when_ (length clocks =? 0)
            (log_warning ("No clocks found in design" +:+ nl)) ;;
      let* interp := gets tcl_interp in
      when_ (bool_decide (interp = None))
            (log_cmd_error ("Tcl interpreter is not available." +:+ nl)) ;;
      let* m := gets logical_to_wire_map in
      let tcl_list := logical_names m clocks in
      modify (set_tcl_interp (Some (Tcl_ListObj tcl_list))) ;;
      let result_str := Tcl_GetString (Tcl_ListObj tcl_list) in
      log_lines (words "" result_str) ;;
      when_ (length clocks =? 0)
            (log_warning ("No clocks found in design after processing." +:+ nl))
  end.

(** [GetClocksCmd::create_clock_with_name]. *)
Definition create_clock_with_name (logical_name wire_name : string) : Cmd unit :=
  modify (fun s =>
            set_logical_to_wire_map
              (<[wire_name := logical_name]> (logical_to_wire_map s)) s).

(** *** [PropagateClocksCmd] *)

(** [for (auto &pass : passes) pass->Run();] *)
Fixpoint run_passes (passes : list Propagation) : Cmd unit :=
  match passes with
  | [] => ret tt
  | pass :: passes =>
      call_lib (Call_Run (pass_class pass)) (Propagation_Run pass) ;;
      run_passes passes
  end.

(** [PropagateClocksCmd::execute(args, design)]. *)
Definition PropagateClocksCmd_execute (args : list string) : Cmd unit :=
  when_ (1 <? length args)
        (log_warning ("Command accepts no arguments." +:+ nl
                      +:+ "All will be ignored." +:+ nl)) ;;
  let* d := gets design in
  when_ (bool_decide (top_module d = None))
        (log_cmd_error ("No top module selected" +:+ nl)) ;;
  let passes := [new_Propagation BufferPropagation d;
                 new_Propagation ClockDividerPropagation d] in
  log ("Perform clock propagation" +:+ nl) ;;
  run_passes passes ;;
  call_lib Call_UpdateAbc9DelayTarget (Clocks_UpdateAbc9DelayTarget d).

(** *** The Tcl dispatcher *)

Inductive Tcl_Status : Type := TCL_OK | TCL_ERROR.

(** The commands of this file that [SdcPlugin] registers and that are
    embedded here. *)
Inductive Pass : Type := create_clock | get_clocks | propagate_clocks.

Definition execute (pass : Pass) : list string -> Cmd unit :=
  match pass with
  | create_clock => CreateClockCmd_execute
  | get_clocks => GetClocksCmd_execute
  | propagate_clocks => PropagateClocksCmd_execute
  end.

(** The lambda that [register_tcl_command] installs: the words of the
    command become [args], [log_cmd_error_exception] is swallowed, any
    other [std::exception] leaves its [what()] as the result. *)
Definition tcl_command (pass : Pass) (objv : list string) (s : Session)
  : Session * Tcl_Status :=
  match execute pass objv s with
  | (s', Done _) => (s', TCL_OK)
  | (s', Thrown (log_cmd_error_exception _)) => (s', TCL_ERROR)
  | (s', Thrown (std_exception what)) =>
      (set_tcl_interp (Some (Tcl_StringObj what)) s', TCL_ERROR)
  end.

(** A script: commands evaluated one after the other, whatever their
    status. *)
Definition run_script (script : list (Pass * list string)) (s : Session) : Session :=
  foldl (fun s cmd => (tcl_command cmd.1 cmd.2 s).1) s script.

(** ** Names of the errors

    The specification's taxonomy names the errors; the source raises them
    through [log_cmd_error] with these messages. *)
Definition UsageError_create_clock : Exception :=
  log_cmd_error_exception ("Incorrect number of arguments" +:+ nl).
Definition InvalidPeriod : Exception :=
  log_cmd_error_exception ("Incorrect period value" +:+ nl).
Definition SelectionEmptyError : Exception :=
  log_cmd_error_exception ("Target selection is empty" +:+ nl).
Definition NoTopModule : Exception :=
  log_cmd_error_exception ("No top module selected" +:+ nl).

(** ** The exits of the commands

    Each [execute] written out as the tree of its exits, with the session
    each exit leaves; the commands are proved equal to these trees below. *)

Definition arguments_warning : LogEntry :=
  Warning ("Command accepts no arguments." +:+ nl +:+ "All will be ignored." +:+ nl).

Definition no_clocks_warning : LogEntry :=
  Warning ("No clocks found in design" +:+ nl).
Definition no_clocks_after_warning : LogEntry :=
  Warning ("No clocks found in design after processing." +:+ nl).

Definition add_logs (es : list LogEntry) (s : Session) : Session :=
  mkSession (design s) (clocks_state s) (logical_to_wire_map s) (tcl_interp s)
            (log_output s ++ es) (calls s).

(** [CreateClockCmd::execute] as a decision tree over its five exits. *)
Definition create_clock_result (args : list string) (s : Session)
  : Session * Outcome unit :=
  if length args <? 4 then (s, Thrown UsageError_create_clock)
  else
    match parse_create_clock (drop 1 args) initial_locals with
    | Thrown e => (s, Thrown e)
    | Done l =>
        if Float32.leb (period l) Float32.zero then (s, Thrown InvalidPeriod)
        else
          match extra_args (AddWirePrefix args (argidx l)) (argidx l) (design s) with
          | Thrown e => (s, Thrown e)
          | Done d =>
              let st := if bool_decide (selected_wires_of d = [])
                        then auto_select (name l) d
                        else (d, selected_wires_of d) in
              match st.2 with
              | [] => (set_design st.1 s, Thrown SelectionEmptyError)
              | wire :: _ =>
                  let name := if bool_decide (name l = "")
                              then unescape_id (wire_name wire) else name l in
                  let rising_edge :=
                    if is_waveform_specified l then rising_edge l else Float32.zero in
                  let falling_edge :=
                    if is_waveform_specified l then falling_edge l
                    else Float32.div (period l) Float32.two in
                  let s1 := add_call (Call_Clock_Add name st.2 (period l) rising_edge
                                                     falling_edge EXPLICIT)
                                     (set_design st.1 s) in
                  match Clock_Add name st.2 (period l) rising_edge falling_edge EXPLICIT
                                  (clocks_state s) with
                  | Done r => (set_clocks_state r s1, Done tt)
                  | Thrown e => (s1, Thrown e)
                  end
              end
          end
    end.

(** [PropagateClocksCmd::execute] as a decision tree over its exits. *)
Definition propagate_clocks_result (args : list string) (s : Session)
  : Session * Outcome unit :=
  let s0 := if 1 <? length args then add_log arguments_warning s else s in
  match top_module (design s) with
  | None => (s0, Thrown NoTopModule)
  | Some _ =>
      let d := design s in
      let s1 := add_call (Call_Run BufferPropagation)
                         (add_log (Log ("Perform clock propagation" +:+ nl)) s0) in
      match Propagation_Run (new_Propagation BufferPropagation d) (clocks_state s) with
      | Thrown e => (s1, Thrown e)
      | Done r1 =>
          let s2 := add_call (Call_Run ClockDividerPropagation) (set_clocks_state r1 s1) in
          match Propagation_Run (new_Propagation ClockDividerPropagation d) r1 with
          | Thrown e => (s2, Thrown e)
          | Done r2 =>
              let s3 := add_call Call_UpdateAbc9DelayTarget (set_clocks_state r2 s2) in
              match Clocks_UpdateAbc9DelayTarget d r2 with
              | Thrown e => (s3, Thrown e)
              | Done r3 => (set_clocks_state r3 s3, Done tt)
              end
          end
      end
  end.

(** [GetClocksCmd::execute] as a decision tree over its exits. *)
Definition get_clocks_result (args : list string) (s : Session)
  : Session * Outcome unit :=
  match parse_get_clocks (drop 1 args) (mkGetClocksLocals 1 false []) with
  | Thrown e => (s, Thrown e)
  | Done _ =>
      let clocks := Clocks_GetClocks (design s) (clocks_state s) in
      let s1 := add_call Call_Clocks_GetClocks s in
      let s2 := if length clocks =? 0 then add_log no_clocks_warning s1 else s1 in
      match tcl_interp s with
      | None =>
          (s2, Thrown (log_cmd_error_exception ("Tcl interpreter is not available." +:+ nl)))
      | Some _ =>
          let tcl_list := Tcl_ListObj (logical_names (logical_to_wire_map s) clocks) in
          let s3 := add_logs (List.map (fun n => Log (n +:+ nl))
                                       (words "" (Tcl_GetString tcl_list)))
                             (set_tcl_interp (Some tcl_list) s2) in
          (if length clocks =? 0 then add_log no_clocks_after_warning s3 else s3, Done tt)
      end
  end.

(** *** [GetPortsCmd] *)

(** [Tcl_SetObjResult(interp, obj)] on the interpreter of the session.
    [get_ports] does not test the interpreter it gets; without one the
    source dereferences a null pointer, and the session has no result to
    set. *)
Definition Tcl_SetObjResult (obj : Tcl_Obj) : Cmd unit :=
  modify (fun s => set_tcl_interp (match tcl_interp s with
                                   | Some _ => Some obj
                                   | None => None
                                   end) s).

(** [if (!wire->port_id) continue;] *)
Definition is_port (wire : Wire) : bool := negb (port_id wire =? 0)%Z.

(** The loop of the branch without port name: the [id2cstr] name of each
    port of the top module, appended to the Tcl list. *)
Definition port_names (top : Module_) : list string :=
  List.map (fun wire => id2cstr (wire_name wire)) (List.filter is_port (wires_ top)).

(** The loop of the branch with a port name: the first port of that name
    ends the loop. *)
Definition find_port (port_to_check : string) (top : Module_) : option Wire :=
  List.find (fun wire => is_port wire
                         && bool_decide (id2cstr (wire_name wire) = port_to_check))
            (wires_ top).

(** The loop that prints the Tcl list, element by element. *)
Fixpoint log_objs (names : list string) : Cmd unit :=
  match names with
  | [] => ret tt
  | name :: names =>
      log (Tcl_GetString (Tcl_StringObj name) +:+ nl) ;; log_objs names
  end.

(** [GetPortsCmd::execute(args, design)]. *)
Definition GetPortsCmd_execute (args : list string) : Cmd unit :=
  let* d := gets design in
  match top_module d with
  | None => log_cmd_error ("No top module selected." +:+ nl)
  | Some top =>
      match args with
      | [_; port_to_check] =>
          match find_port port_to_check top with
          | Some wire =>
              let port_name := id2cstr (wire_name wire) in
              log (port_name +:+ nl) ;;
              Tcl_SetObjResult (Tcl_StringObj port_name)
          | None =>
              log ("Error:: port " +:+ port_to_check +:+ " not exist" +:+ nl) ;;
              Tcl_SetObjResult (Tcl_StringObj "")
          end
      | [_] =>
          let tcl_list := port_names top in
          when_ (bool_decide (tcl_list = []))
                (log ("Error:: No ports found for 'get_ports'" +:+ nl) ;;
                 Tcl_SetObjResult (Tcl_StringObj "")) ;;
          log_objs tcl_list ;;
          Tcl_SetObjResult (Tcl_ListObj tcl_list)
      | _ => log_cmd_error ("Invalid usage: get_ports [port_name]" +:+ nl)
      end
  end.

(** *** [WriteSdcCmd] *)

(** [Backend::extra_args(f, filename, args, argidx)] of the host opens the
    output stream, and [SdcWriter::WriteSdc] of [sdc_writer.h] writes the
    text; both are parameters. *)
Variable Backend_extra_args : list string -> nat -> Outcome unit.
Variable SdcWriter_WriteSdc : Design -> R -> bool -> Outcome string.

(** The switch loop, on the arguments from [args[argidx]] on, with
    [include_propagated] and [argidx]. *)
Fixpoint parse_write_sdc (rest : list string) (st : bool * nat) : bool * nat :=
  match rest with
  | arg :: rest' =>
      match rest' with
      | [] => st
      | _ :: _ =>
          if bool_decide (arg = "-include_propagated_clocks")
          then parse_write_sdc rest' (true, S st.2)
          else st
      end
  | [] => st
  end.

(** [WriteSdcCmd::execute(f, filename, args, design)]; the value is the
    text written to the stream. *)
Definition WriteSdcCmd_execute (args : list string) : Cmd string :=
  when_ (length args <? 2)
        (log_cmd_error ("Missing output file." +:+ nl)) ;;
  let st := parse_write_sdc (drop 1 args) (false, 1) in
  log (nl +:+ "Writing out clock constraints file(SDC)" +:+ nl) ;;
  let* _ := lift (Backend_extra_args args st.2) in
  let* d := gets design in
  let* r := gets clocks_state in
  lift (SdcWriter_WriteSdc d r st.1).


(** *** Words *)

(** A word as [operator>>(std::string&)] yields it: not empty, no white
    space in it. *)
Definition is_word (w : string) : bool :=
  negb (bool_decide (w = ""))
  && forallb (fun c => negb (isspace c)) (String.list_ascii_of_string w).

End Commands.

(** ** The clock registry of the specification *)

Module ClockRegistry.

(** Modelled from the spec: [clocks.h] is not part of the sources.  A clock
    is the record of section 3: name, period, the two edges of the
    waveform, the nodes it is rooted at, and its kind. *)
Record Clock : Type := mkClock {
  clock_name : string;
  clock_period : float;
  clock_rising_edge : float;
  clock_falling_edge : float;
  source_nodes : list Wire;
  kind : ClockType
}.

#[global] Instance Clock_eq_dec : EqDecision Clock.
Proof. solve_decision. Defined.

(** Modelled from the spec: the state that [clocks.h] and [propagation.h]
    own.  The registry holds its clocks in insertion order (section 4.1);
    [warnings] are the anomalies the propagation engine has reported
    (section 7). *)
Record Registry : Type := mkRegistry {
  clocks : list Clock;
  warnings : list string
}.

Definition DuplicateNameConflict : Exception :=
  log_cmd_error_exception "DuplicateNameConflict".

(** Modelled from the spec: [Get(name)] of section 4.1. *)
Definition Get (name : string) (r : list Clock) : option Clock :=
  List.find (fun c => bool_decide (clock_name c = name)) r.

(** Modelled from the spec: [FindByNode(node)] of section 4.1. *)
Definition FindByNode (node : Wire) (r : list Clock) : list Clock :=
  List.filter (fun c => bool_decide (node ∈ source_nodes c)) r.

(** Modelled from the spec: [All(kindFilter?)] of section 4.1, in insertion
    order. *)
Definition All (kindFilter : option ClockType) (r : list Clock) : list Clock :=
  match kindFilter with
  | None => r
  | Some k => List.filter (fun c => bool_decide (kind c = k)) r
  end.

(** Modelled from the spec: [RemoveAllOfKind(kind)] of section 4.1. *)
Definition RemoveAllOfKind (k : ClockType) (r : list Clock) : list Clock :=
  List.filter (fun c => negb (bool_decide (kind c = k))) r.

Definition same_nodes (a b : list Wire) : bool :=
  forallb (fun w => bool_decide (w ∈ b)) a && forallb (fun w => bool_decide (w ∈ a)) b.

(** Modelled from the spec: [Add] of section 4.1, called without an
    "extend" flag, as [create_clock] does.  A period [<= 0] is an
    [InvalidPeriod]; a name bound to other nodes or another kind is a
    [DuplicateNameConflict]; a name bound to the same nodes and kind is
    merged, the new record taking the place of the old one; a new name is
    appended. *)
Definition Add (name : string) (nodes : list Wire) (period rising falling : float)
    (type : ClockType) (r : list Clock) : Outcome (list Clock) :=
  let c := mkClock name period rising falling nodes type in
  if Float32.leb period Float32.zero
  then Thrown InvalidPeriod
  else match Get name r with
       | None => Done (r ++ [c])
       | Some old =>
           if same_nodes (source_nodes old) nodes && bool_decide (kind old = type)
           then Done (List.map (fun c' => if bool_decide (clock_name c' = name)
                                          then c else c') r)
           else Thrown DuplicateNameConflict
       end.

(** Insertion into a [std::map] kept as the list of its entries in key
    order; [std::map::insert] leaves an existing key alone. *)
Fixpoint map_insert {V : Type} (k : string) (v : V) (m : list (string * V))
  : list (string * V) :=
  match m with
  | [] => [(k, v)]
  | (k', v') :: m' =>
      match String.compare k k' with
      | Lt => (k, v) :: m
      | Eq => m
      | Gt => (k', v') :: map_insert k v m'
      end
  end.

(** Modelled from the spec: [Clocks::GetClocks] is declared in [clocks.h];
    its result type in the source is a [std::map] from names to wires.  It
    enumerates the registry: each clock enters the map under its name with
    the first of its source nodes. *)
Definition GetClocks (r : list Clock) : list (string * Wire) :=
  foldl (fun m c => match source_nodes c with
                    | wire :: _ => map_insert (clock_name c) wire m
                    | [] => m
                    end) [] r.

(** Clocks appended to a registry, all of them [PROPAGATED]. *)
Definition extends_propagated (r r' : list Clock) : Prop :=
  exists l, r' = r ++ l /\ Forall (fun c => kind c = PROPAGATED) l.

(** The names of a registry are unique. *)
Definition unique_names (r : list Clock) : Prop := NoDup (List.map clock_name r).

End ClockRegistry.

(** ** The propagation engine of the specification *)

Module PropagationEngine.

Import ClockRegistry.

Definition is_transparent (c : Cell) : bool :=
  match cell_kind c with Transparent => true | _ => false end.

(** The output nodes of the transparent cells fed by a node of [frontier]. *)
Definition transparent_fanout (cells : list Cell) (frontier : list string) : list string :=
  List.map cell_output
    (List.filter (fun c => is_transparent c && bool_decide (cell_input c ∈ frontier)) cells).

(** Modelled from the spec: the breadth-first traversal of section 4.2,
    level by level, with its visited set.  Each level reports the nodes it
    arrives at; the traversal goes on from those it had not visited.  It
    yields the arrivals in order and the visited set it ends with. *)
Fixpoint bfs (rounds : nat) (cells : list Cell) (visited frontier : list string)
  : list string * list string :=
  match rounds with
  | 0 => ([], visited)
  | S rounds =>
      let fanout := remove_dups (transparent_fanout cells frontier) in
      let fresh := List.filter (fun n => bool_decide (n ∉ visited)) fanout in
      match fresh with
      | [] => (fanout, visited)
      | _ =>
          let '(arrivals, visited') := bfs rounds cells (visited ++ fresh) fresh in
          (fanout ++ arrivals, visited')
      end
  end.

(** The output nodes that a traversal has not visited: each level that
    goes on takes at least one of them. *)
Definition unvisited (cells : list Cell) (visited : list string) : list string :=
  List.filter (fun n => bool_decide (n ∉ visited)) (List.map cell_output cells).

(** Modelled from the spec: what the engine does on arriving at [node]
    with a clock of the given period and waveform (section 4.2).  A node
    that is no wire of the top module is skipped with a warning.  A node
    that already roots a clock keeps it, first seen wins, and a differing
    period is a [PropagationConflict] warning.  Otherwise a [PROPAGATED]
    clock named after the node is appended, unless the name is taken. *)
Definition record_clock (top : Module_) (period rising falling : float)
    (st : list Clock * list string) (node : string) : list Clock * list string :=
  match List.find (fun w => bool_decide (wire_name w = node)) (wires_ top) with
  | None => (st.1, st.2 ++ ["malformed node " +:+ node])
  | Some wire =>
      match FindByNode wire st.1 with
      | existing :: _ =>
          if Float32.eqb (clock_period existing) period then st
          else (st.1, st.2 ++ ["PropagationConflict at " +:+ node])
      | [] =>
          match Get node st.1 with
          | Some _ => (st.1, st.2 ++ ["DuplicateNameConflict at " +:+ node])
          | None => (st.1 ++ [mkClock node period rising falling [wire] PROPAGATED], st.2)
          end
      end
  end.

Definition node_names (c : Clock) : list string := List.map wire_name (source_nodes c).

(** Modelled from the spec: sub-pass 1, transparent propagation.  The
    clocks present when the pass starts are taken in insertion order; the
    nodes that root a clock count as visited, so the traversal does not
    cross them; every node arrived at inherits period and waveform. *)
Definition transparent_step (top : Module_)
    (st : list Clock * list string * list string) (c : Clock)
  : list Clock * list string * list string :=
  let '(arrivals, visited) :=
    bfs (S (length (cells_ top))) (cells_ top) st.2 (node_names c) in
  (foldl (record_clock top (clock_period c) (clock_rising_edge c) (clock_falling_edge c))
         st.1 arrivals,
   visited).

Definition transparent_pass (top : Module_) (r : list Clock) (w : list string)
  : list Clock * list string :=
  (foldl (transparent_step top) (r, w, List.flat_map node_names r) r).1.

(** The divider cells fed by a node of the clock, with their divisors. *)
Definition dividers_at (cells : list Cell) (c : Clock) : list (positive * string) :=
  List.flat_map
    (fun cell => match cell_kind cell with
                 | Divider divisor =>
                     if bool_decide (cell_input cell ∈ node_names c)
                     then [(divisor, cell_output cell)] else []
                 | _ => []
                 end) cells.

(** Modelled from the spec: the clock a divider derives (section 4.2):
    [period = source.period * divisor], [rising_edge = 0],
    [falling_edge = new_period / 2]. *)
Definition divide (top : Module_) (c : Clock)
    (st : list Clock * list string) (divider : positive * string)
  : list Clock * list string :=
  let new_period := Float32.mul (clock_period c) (Float32.of_pos divider.1) in
  record_clock top new_period Float32.zero (Float32.div new_period Float32.two)
               st divider.2.

(** Modelled from the spec: sub-pass 2, divider propagation, over the
    clocks available after sub-pass 1, in insertion order.  After sub-pass 1
    the nodes a clock reaches through transparent cells root clocks of
    their own, so the dividers a clock reaches are those its nodes feed. *)
Definition divider_pass (top : Module_) (r : list Clock) (w : list string)
  : list Clock * list string :=
  foldl (fun st c => foldl (divide top c) st (dividers_at (cells_ top) c)) (r, w) r.

(** The clocks of the registry after both sub-passes, from the clocks that
    are left once the [PROPAGATED] ones are discarded. *)
Definition derive (top : Module_) (base : list Clock) : list Clock :=
  (divider_pass top (transparent_pass top base []).1 []).1.

Section Engine.

Context `{host : Host}.

(** Modelled from the spec: [Run] of the two passes.  Section 4.2 has all
    [PROPAGATED] clocks discarded before each run; [propagate_clocks] itself
    makes no such call, so the discard opens the first sub-pass. *)
Definition Run (pass : Propagation) (r : Registry) : Outcome Registry :=
  match top_module (pass_design pass) with
  | None => Done r
  | Some top =>
      let st :=
        match pass_class pass with
        | BufferPropagation =>
            transparent_pass top (RemoveAllOfKind PROPAGATED (clocks r)) (warnings r)
        | ClockDividerPropagation =>
            divider_pass top (clocks r) (warnings r)
        end in
      Done (mkRegistry st.1 st.2)
  end.

(** Modelled from the spec: [Clock::Add] stores into the registry. *)
Definition Registry_Add (name : string) (wires : list Wire) (period rising falling : float)
    (type : ClockType) (r : Registry) : Outcome Registry :=
  match Add name wires period rising falling type (clocks r) with
  | Done cs => Done (mkRegistry cs (warnings r))
  | Thrown e => Thrown e
  end.

(** Modelled from the spec: the delay target is a hint kept by the
    downstream analyzer (section 4.2); recomputing it leaves the registry
    as it is. *)
Definition UpdateAbc9DelayTarget (d : Design) (r : Registry) : Outcome Registry :=
  Done r.

#[export] Instance spec_lib : ClocksLib Registry := {
  Clock_Add := Registry_Add;
  Clocks_GetClocks := fun _ r => GetClocks (clocks r);
  Propagation_Run := Run;
  Clocks_UpdateAbc9DelayTarget := UpdateAbc9DelayTarget
}.

End Engine.

End PropagationEngine.

(** ** A host and a design for the examples *)

Module Example.

Import ClockRegistry PropagationEngine.

Definition is_digit (c : Ascii.ascii) : bool :=
  let n := Ascii.nat_of_ascii c in (48 <=? n) && (n <=? 57).

(** The host's [unescape_id]: a leading backslash is dropped unless the
    identifier would then start with a dollar, a backslash or a digit. *)
Definition yosys_unescape_id (str : string) : string :=
  match str with
  | String c0 (String c1 rest) =>
      if bool_decide (c0 = "\"%char)
         && negb (bool_decide (c1 = "$"%char))
         && negb (bool_decide (c1 = "\"%char))
         && negb (is_digit c1)
      then String c1 rest
      else str
  | _ => str
  end.

(** Reading decimal digits: the number read so far, how many digits were
    read, and the rest. *)
Fixpoint read_digits (s : string) (acc : Z) (count : nat) : Z * nat * string :=
  match s with
  | String c s' =>
      if is_digit c
      then read_digits s' (10 * acc + Z.of_nat (Ascii.nat_of_ascii c - 48)) (S count)
      else (acc, count, s)
  | EmptyString => (acc, count, s)
  end.

Definition of_Z (z : Z) : float :=
  binary_normalize Float32.prec Float32.emax z 0 false.

(** A plain decimal literal, [digits] or [digits.digits] with an optional
    minus sign, as a binary32 number, and the characters after it. *)
Definition read_decimal (s : string) : option (float * string) :=
  let '(negative, s) :=
    match s with
    | String c s' => if bool_decide (c = "-"%char) then (true, s') else (false, s)
    | EmptyString => (false, s)
    end in
  let '(int, n, s) := read_digits s 0 0 in
  let '(num, k, s) :=
    match s with
    | String c s' => if bool_decide (c = "."%char) then read_digits s' int 0 else (int, 0, s)
    | EmptyString => (int, 0, s)
    end in
  if (n + k =? 0)%nat then None
  else Some (Float32.div (of_Z (if negative then - num else num)) (of_Z (10 ^ Z.of_nat k)), s).

Fixpoint skip_spaces (s : string) : string :=
  match s with
  | String c s' => if isspace c then skip_spaces s' else s
  | EmptyString => s
  end.

Definition strip_wire_prefix (pattern : string) : string :=
  match pattern with
  | String "w" (String ":" rest) => rest
  | _ => pattern
  end.

(** The selection a list of [w:name] patterns denotes: in each module, the
    wires with one of these names. *)
Definition select_wires (patterns : list string) (d : Design) : Selection :=
  let names := List.map strip_wire_prefix patterns in
  mkSelection false ∅
    (list_to_map
       (List.flat_map
          (fun m =>
             match List.filter (fun w => bool_decide (yosys_unescape_id (wire_name w) ∈ names))
                               (wires_ m) with
             | [] => []
             | ws => [(module_name m, list_to_set (List.map wire_name ws))]
             end)
          (modules_ d))).

(** A host for the examples: the top module is the one named [\top];
    target arguments are wire names and become the current selection;
    numbers are plain decimal literals; a Tcl list prints as its words. *)
#[export] Instance example_host : Host := {
  top_module := fun d => List.find (fun m => bool_decide (module_name m = "\top")) (modules_ d);
  extra_args := fun args argidx d =>
    match drop argidx args with
    | [] => Done d
    | arg :: rest =>
        if is_switch arg
        then Thrown (log_cmd_error_exception "Unknown option or option in arguments.")
        else Done (mkDesign (modules_ d)
                            (selection_stack d ++ [select_wires (arg :: rest) d])
                            (selected_active_module d))
    end;
  id2cstr := yosys_unescape_id;
  unescape_id := yosys_unescape_id;
  stof := fun str =>
    match read_decimal (skip_spaces str) with
    | Some (x, _) => Done x
    | None => Thrown (std_exception "stof")
    end;
  extract_float := fun str =>
    match read_decimal (skip_spaces str) with
    | Some (x, rest) => (x, true, rest)
    | None => (Float32.zero, false, str)
    end;
  Tcl_GetString := fun obj =>
    match obj with
    | Tcl_StringObj str => str
    | Tcl_ListObj elems => String.concat " " elems
    end
}.

(** A top module with a clock input, a buffer behind it and a divider by
    two behind the buffer. *)
Definition clk : Wire := mkWire "\clk" 1.
Definition clk_buf : Wire := mkWire "\clk_buf" 0.
Definition clk_div : Wire := mkWire "\clk_div" 0.

Definition top : Module_ :=
  mkModule "\top" [clk; clk_buf; clk_div]
           [mkCell "\buf" Transparent "\clk" "\clk_buf";
            mkCell "\div" (Divider 2) "\clk_buf" "\clk_div"].

(** The design with everything selected, as the host starts. *)
Definition full_design : Design := mkDesign [top] [mkSelection true ∅ ∅] "".

(** The same design with a selection that names a cell only. *)
Definition cell_selected_design : Design :=
  mkDesign [top] [mkSelection false ∅ {[ "\top" := {[ "\buf" ]} ]}] "".

(** A design without modules. *)
Definition empty_design : Design := mkDesign [] [mkSelection true ∅ ∅] "".

Definition start (d : Design) : Session Registry :=
  mkSession d (mkRegistry [] []) ∅ (Some (Tcl_StringObj "")) [] [].

(** The commands used in the examples. *)
Definition create_clk : list string := ["create_clock"; "-period"; "10"; "clk"].

(** The session after [create_clock -period 10 clk] on the example. *)
Definition clk_session : Session Registry :=
  (CreateClockCmd_execute create_clk (start full_design)).1.

Definition create_nowire : list string := ["create_clock"; "-period"; "10"; "nowire"].

(** The design [extra_args] makes of the target [nowire]: the new
    selection holds nothing. *)
Definition nowire_design : Design :=
  mkDesign [top] [mkSelection true ∅ ∅; select_wires ["w:nowire"] full_design] "".

Definition create_and_propagate : list (Pass * list string) :=
  [(create_clock, create_clk); (propagate_clocks, ["propagate_clocks"])].

(** A call with a period that [stof] cannot read. *)
Definition create_bad_period : list string :=
  ["create_clock"; "-period"; "fast"; "clk"].

(** A [Backend::extra_args] for the examples: what is left at [argidx] is
    the file name and nothing else. *)
Definition example_extra_args (args : list string) (argidx : nat) : Outcome unit :=
  match drop argidx args with
  | [filename] =>
      if is_switch filename
      then Thrown (log_cmd_error_exception "Unknown option or option in arguments.")
      else Done tt
  | _ => Thrown (log_cmd_error_exception "Extra filename argument in direct file mode.")
  end.

(** A writer for the examples: the names of the clocks, one on each line,
    those of kind [PROPAGATED] only when asked for. *)
Definition example_WriteSdc (d : Design) (r : Registry) (include_propagated : bool)
  : Outcome string :=
  Done (String.concat nl
          (List.map clock_name
             (List.filter (fun c => include_propagated
                                    || negb (bool_decide (kind c = PROPAGATED)))
                          (clocks r)))).

Definition write_all : list string :=
  ["write_sdc"; "-include_propagated_clocks"; "out.sdc"].

End Example.

(** ** The query of the specification *)

(** The [GetClocks] of section 4.5, in the specification's words: the
    clocks of the registry, filtered by the nodes and the name patterns
    when some are given, duplicate names suppressed, in the order of the
    registry. *)
Definition spec_GetClocks (ofNodes namePatterns : list string)
    (registry : list (string * Wire)) : list string :=
  remove_dups
    (List.map fst
       (List.filter
          (fun clock : string * Wire =>
             (bool_decide (ofNodes = []) || bool_decide (wire_name clock.2 ∈ ofNodes))
             && (bool_decide (namePatterns = []) || bool_decide (clock.1 ∈ namePatterns)))
          registry)).

(** * Properties of the commands *)

Section CommandProperties.

Context `{host : Host} {R : Type} `{lib : !ClocksLib R}.

Local Abbreviation Session := (Session R).

Variable Backend_extra_args : list string -> nat -> Outcome unit.
Variable SdcWriter_WriteSdc : Design -> R -> bool -> Outcome string.

(** Unfolding the monad of commands. *)
Ltac cmd_unfold :=
  unfold when_, log_cmd_error, log_warning, log, lift, call_lib,
         bind, ret, throw, gets, modify in *.

(** ** Properties of [create_clock] *)

(** Induction for the loops that look one argument ahead. *)
Lemma list_ind_pairs {A} (P : list A -> Prop) :
  P [] -> (forall x, P [x]) ->
  (forall x y l, P l -> P (y :: l) -> P (x :: y :: l)) ->
  forall l, P l.
Proof.
  intros Hnil Hone Hstep l.
  enough (H : P l /\ forall x, P (x :: l)) by apply H.
  induction l as [|y l [IH1 IH2]]; [by split|].
  split; [apply IH2|]. intros x. by apply Hstep.
Qed.

(** The option loop, one step at a time. *)
Lemma parse_create_clock_step arg value rest l :
  parse_create_clock (arg :: value :: rest) l =
    if bool_decide (arg = "-add") then
      parse_create_clock (value :: rest)
        (mkLocals (S (argidx l)) (name l) (is_waveform_specified l)
                  (rising_edge l) (falling_edge l) (period l))
    else if bool_decide (arg = "-name") then
      parse_create_clock rest
        (mkLocals (S (S (argidx l))) value (is_waveform_specified l)
                  (rising_edge l) (falling_edge l) (period l))
    else if bool_decide (arg = "-period") then
      match stof value with
      | Done p =>
          parse_create_clock rest
            (mkLocals (S (S (argidx l))) (name l) (is_waveform_specified l)
                      (rising_edge l) (falling_edge l) p)
      | Thrown e => Thrown e
      end
    else if bool_decide (arg = "-waveform") then
      let l' := read_waveform (copy_if_in_place waveform_pred value) l in
      parse_create_clock rest
        (mkLocals (S (S (argidx l))) (name l') (is_waveform_specified l')
                  (rising_edge l') (falling_edge l') (period l'))
    else Done l.
Proof. reflexivity. Qed.

(** The option loop sets [is_waveform_specified] only on a [-waveform]
    switch. *)
Lemma parse_create_clock_no_waveform rest :
  forall l l',
    "-waveform" ∉ rest ->
    parse_create_clock rest l = Done l' ->
    is_waveform_specified l' = is_waveform_specified l.
Proof.
  assert (H : forall n rest, length rest <= n -> forall l l',
             "-waveform" ∉ rest ->
             parse_create_clock rest l = Done l' ->
             is_waveform_specified l' = is_waveform_specified l).
  { clear rest. induction n as [|n IH]; intros rest Hlen l l' Hnotin Hparse.
    - destruct rest; [|simpl in Hlen; lia]. by inversion Hparse.
    - destruct rest as [|arg [|value rest'']].
      + by inversion Hparse.
      + by inversion Hparse.
      + rewrite parse_create_clock_step in Hparse.
        cbn [length] in Hlen.
        pose proof Hnotin as Hnotin'.
        apply not_elem_of_cons in Hnotin' as [Harg Hnotin'].
        pose proof Hnotin' as Hnotin''.
        apply not_elem_of_cons in Hnotin'' as [Hvalue Hnotin''].
        destruct (bool_decide (arg = "-add")).
        { apply IH in Hparse; [done|cbn [length]; lia|done]. }
        destruct (bool_decide (arg = "-name")).
        { apply IH in Hparse; [done|lia|done]. }
        destruct (bool_decide (arg = "-period")).
        { destruct (stof value) as [p|e]; [|done].
          apply IH in Hparse; [done|lia|done]. }
        case_bool_decide; [by subst|].
        by inversion Hparse. }
  intros l l'. apply (H (length rest)). lia.
Qed.

Lemma CreateClockCmd_execute_result args (s : Session) :
  CreateClockCmd_execute args s = create_clock_result args s.
Proof.
  unfold CreateClockCmd_execute, create_clock_result. cmd_unfold.
  destruct (length args <? 4); [done|].
  destruct (parse_create_clock _ _) as [l|e]; [|done].
  destruct (Float32.leb _ _); [done|]. cbn [design].
  destruct (extra_args _ _ _) as [d|e]; [|done].
  case_bool_decide as Hsel.
  - destruct (auto_select (name l) d) as [d' found] eqn:Hauto. cbn [fst snd].
    destruct found as [|wire found]; [done|]. cbn [length Nat.eqb].
    case_bool_decide; cbn [clocks_state set_design add_call];
      by destruct (Clock_Add _ _ _ _ _ _ _).
  - cbn [fst snd]. destruct (selected_wires_of d) as [|wire found]; [done|].
    cbn [length Nat.eqb].
    case_bool_decide; cbn [clocks_state set_design add_call];
      by destruct (Clock_Add _ _ _ _ _ _ _).
Qed.

(** C3. A successful [create_clock] whose arguments hold no [-waveform]
    hands the clock to [Clock::Add] with [rising_edge = 0] and
    [falling_edge = period / 2] (the binary32 division of the source), where
    [period] is the value the option loop read and is not [<= 0]; the
    registry becomes what [Clock::Add] returns for these values.  In
    particular a period of [10.0] gives the waveform [(0.0, 5.0)]. *)
Theorem create_clock_default_waveform (args : list string) (s s' : Session) :
  "-waveform" ∉ args ->
  CreateClockCmd_execute args s = (s', Done tt) ->
  exists l name wires,
    parse_create_clock (drop 1 args) initial_locals = Done l
    /\ Float32.leb (period l) Float32.zero = false
    /\ calls s' = calls s ++ [Call_Clock_Add name wires (period l) Float32.zero
                                (Float32.div (period l) Float32.two) EXPLICIT]
    /\ Clock_Add name wires (period l) Float32.zero
                 (Float32.div (period l) Float32.two) EXPLICIT (clocks_state s)
       = Done (clocks_state s')
    /\ (period l = Float32.ten ->
        Float32.div (period l) Float32.two = Float32.five).
Proof.
  intros Hnw Hexec.
  rewrite CreateClockCmd_execute_result in Hexec. unfold create_clock_result in Hexec.
  destruct (length args <? 4); [done|].
  destruct (parse_create_clock _ _) as [l|e] eqn:Hparse; [|done].
  destruct (Float32.leb _ _) eqn:Hperiod; [done|].
  destruct (extra_args _ _ _) as [d|e]; [|done].
  assert (Hwf : is_waveform_specified l = false).
  { apply parse_create_clock_no_waveform in Hparse; [done|].
    destruct args as [|arg0 args]; [done|].
    by apply not_elem_of_cons in Hnw as [_ Hnw]. }
  rewrite Hwf in Hexec. cbv zeta in Hexec.
  destruct (_.2) as [|wire found] eqn:Hfound; [done|].
  destruct (Clock_Add _ _ _ _ _ _ _) as [r|e] eqn:Hadd; [|done].
  inversion Hexec; subst s'. clear Hexec.
  eexists l, _, _. split_and!; [done|done|done|exact Hadd|].
  intros ->. reflexivity.
Qed.

(** Without a [-period] switch the option loop returns and leaves the
    period at its initial value. *)
Lemma parse_create_clock_no_period rest :
  forall l,
    "-period" ∉ rest ->
    exists l', parse_create_clock rest l = Done l' /\ period l' = period l.
Proof.
  induction rest as [|arg|arg value rest IH2 IH1] using list_ind_pairs;
    intros l Hnotin.
  - by exists l.
  - by exists l.
  - rewrite parse_create_clock_step.
    pose proof Hnotin as Hnotin'.
    apply not_elem_of_cons in Hnotin' as [Harg Hnotin'].
    pose proof Hnotin' as Hnotin''.
    apply not_elem_of_cons in Hnotin'' as [Hvalue Hnotin''].
    destruct (bool_decide (arg = "-add")).
    { destruct (IH1 (mkLocals (S (argidx l)) (name l) (is_waveform_specified l)
                              (rising_edge l) (falling_edge l) (period l)) Hnotin')
        as (l' & Hparse & Hperiod).
      by exists l'. }
    destruct (bool_decide (arg = "-name")).
    { destruct (IH2 (mkLocals (S (S (argidx l))) value (is_waveform_specified l)
                              (rising_edge l) (falling_edge l) (period l)) Hnotin'')
        as (l' & Hparse & Hperiod).
      by exists l'. }
    case_bool_decide; [by subst|].
    destruct (bool_decide (arg = "-waveform")).
    { cbv zeta.
      match goal with
      | |- exists l', parse_create_clock rest ?l0 = _ /\ _ =>
          destruct (IH2 l0 Hnotin'') as (l' & Hparse & Hperiod)
      end.
      exists l'. split; [done|]. rewrite Hperiod. cbn [period].
      unfold read_waveform. destruct (at_end _); [done|].
      by destruct (extract_float _) as [[r ok] rest']. }
    by exists l.
Qed.

(** C4, as amended.  A [create_clock] call of fewer than four words fails
    with "Incorrect number of arguments", whatever its options.  A call of
    at least four words whose option loop leaves a period [<= 0] fails
    with [InvalidPeriod].  Without a [-period] switch the loop returns with
    the initial period [0], which is [<= 0], so that such a call of at
    least four words fails with [InvalidPeriod] too.  Each time the
    session is left as it was: no clock is added. *)
Theorem create_clock_nonpositive_period (args : list string) (s : Session) :
  (length args < 4 ->
   CreateClockCmd_execute args s = (s, Thrown UsageError_create_clock))
  /\ (4 <= length args ->
      forall l,
        parse_create_clock (drop 1 args) initial_locals = Done l ->
        Float32.leb (period l) Float32.zero = true ->
        CreateClockCmd_execute args s = (s, Thrown InvalidPeriod))
  /\ ("-period" ∉ args ->
      (exists l,
         parse_create_clock (drop 1 args) initial_locals = Done l
         /\ period l = Float32.zero
         /\ Float32.leb (period l) Float32.zero = true)
      /\ (4 <= length args ->
          CreateClockCmd_execute args s = (s, Thrown InvalidPeriod))).
Proof.
  assert (Hbig : 4 <= length args ->
                 forall l,
                   parse_create_clock (drop 1 args) initial_locals = Done l ->
                   Float32.leb (period l) Float32.zero = true ->
                   CreateClockCmd_execute args s = (s, Thrown InvalidPeriod)).
  { intros Hlen l Hparse Hperiod.
    rewrite CreateClockCmd_execute_result. unfold create_clock_result.
    destruct (Nat.ltb_spec (length args) 4) as [?|_]; [lia|].
    by rewrite Hparse, Hperiod. }
  split_and!.
  - intros Hlen. rewrite CreateClockCmd_execute_result. unfold create_clock_result.
    by destruct (Nat.ltb_spec (length args) 4) as [_|?]; [|lia].
  - exact Hbig.
  - intros Hnotin.
    assert (Hrest : "-period" ∉ drop 1 args).
    { intros Hin. apply Hnotin. destruct args as [|arg0 args]; [done|]. by right. }
    destruct (parse_create_clock_no_period _ initial_locals Hrest) as (l & Hparse & Hperiod).
    cbn [period initial_locals] in Hperiod.
    assert (Hleb : Float32.leb (period l) Float32.zero = true) by by rewrite Hperiod.
    split; [by exists l|]. intros Hlen. by apply (Hbig Hlen l).
Qed.

(** The fallback loops change the design only when they find a wire. *)
Lemma auto_select_wire_none name module st wire :
  (auto_select_wire name module st wire).2 = [] ->
  st.2 = [] /\ auto_select_wire name module st wire = st.
Proof.
  unfold auto_select_wire. case_bool_decide; cbn [snd]; [|done].
  intros Happ. by apply app_nil in Happ as [_ ?].
Qed.

Lemma auto_select_wires_none name module wires :
  forall st,
    (foldl (auto_select_wire name module) st wires).2 = [] ->
    st.2 = [] /\ foldl (auto_select_wire name module) st wires = st.
Proof.
  induction wires as [|wire wires IH]; intros st Hnone; [done|].
  cbn [foldl] in *. apply IH in Hnone as [Hnone Heq].
  apply auto_select_wire_none in Hnone as [Hnone Hstep].
  by rewrite Heq, Hstep.
Qed.

Lemma auto_select_modules_none name modules :
  forall st,
    (foldl (auto_select_module name) st modules).2 = [] ->
    st.2 = [] /\ foldl (auto_select_module name) st modules = st.
Proof.
  induction modules as [|module modules IH]; intros st Hnone; [done|].
  cbn [foldl] in *. apply IH in Hnone as [Hnone Heq]. rewrite Heq.
  unfold auto_select_module in *. destruct (selected_module _ _); [|done].
  by apply auto_select_wires_none in Hnone.
Qed.

Lemma auto_select_none name d :
  (auto_select name d).2 = [] -> auto_select name d = (d, []).
Proof.
  unfold auto_select. intros Hnone.
  by apply auto_select_modules_none in Hnone as [_ ?].
Qed.

Lemma auto_select_wire_step name module st wire :
  auto_select_wire name module st wire =
    if bool_decide (wire_name wire = name)
    then (select st.1 module wire, st.2 ++ [wire])
    else st.
Proof. reflexivity. Qed.

(** The fallback loops find no wire exactly when no wire of a selected
    module bears the name. *)
Lemma auto_select_wires_no_match name module st wires :
  List.filter (fun wire => bool_decide (wire_name wire = name)) wires = [] ->
  foldl (auto_select_wire name module) st wires = st.
Proof.
  revert st. induction wires as [|wire wires IH]; intros st Hnone; [done|].
  cbn [foldl List.filter] in *. rewrite auto_select_wire_step.
  destruct (bool_decide (wire_name wire = name)); [done|]. by apply IH.
Qed.

Lemma auto_select_wires_found name module d wires :
  (foldl (auto_select_wire name module) (d, []) wires).2 = [] ->
  List.filter (fun wire => bool_decide (wire_name wire = name)) wires = [].
Proof.
  induction wires as [|wire wires IH]; [done|].
  cbn [foldl List.filter]. intros Hnone.
  apply auto_select_wires_none in Hnone as [Hnone Heq].
  rewrite auto_select_wire_step in Hnone, Heq.
  destruct (bool_decide (wire_name wire = name)); [by cbn in Hnone|].
  apply IH. by rewrite Heq.
Qed.

Lemma auto_select_none_iff name d :
  (auto_select name d).2 = [] <-> wires_named name d = [].
Proof.
  unfold auto_select, wires_named.
  induction (modules_ d) as [|module modules IH]; [done|].
  cbn [foldl List.flat_map]. unfold auto_select_module at 2. cbn [fst].
  destruct (selected_module d module); [|by rewrite IH].
  split.
  - intros Hnone. pose proof Hnone as Hfirst.
    apply auto_select_modules_none in Hfirst as [Hfirst _].
    pose proof (auto_select_wires_found _ _ _ _ Hfirst) as Hfilter.
    rewrite Hfilter. cbn [app]. apply IH.
    by rewrite (auto_select_wires_no_match _ _ _ _ Hfilter) in Hnone.
  - intros [Hfilter Hrest]%app_eq_nil.
    rewrite (auto_select_wires_no_match _ _ _ _ Hfilter). by apply IH.
Qed.

(** C7. When a [create_clock] call reaches the resolution of its target
    (arguments and period accepted, [extra_args] returned) and both the
    selected wires and the wires named like the clock are none, the call
    fails with [SelectionEmptyError]; no call to [Clock::Add] is made and
    the state of the clock library stays as it was. *)
Theorem create_clock_empty_selection (args : list string) (s : Session)
    (l : CreateClockLocals) (d : Design) :
  4 <= length args ->
  parse_create_clock (drop 1 args) initial_locals = Done l ->
  Float32.leb (period l) Float32.zero = false ->
  extra_args (AddWirePrefix args (argidx l)) (argidx l) (design s) = Done d ->
  selected_wires_of d = [] ->
  wires_named (name l) d = [] ->
  exists s',
    CreateClockCmd_execute args s = (s', Thrown SelectionEmptyError)
    /\ s' = set_design d s
    /\ clocks_state s' = clocks_state s
    /\ calls s' = calls s.
Proof.
  intros Hlen Hparse Hperiod Hextra Hsel Hnamed.
  apply auto_select_none_iff in Hnamed as Hauto.
  exists (set_design d s). split; [|done].
  rewrite CreateClockCmd_execute_result. unfold create_clock_result.
  destruct (Nat.ltb_spec (length args) 4) as [?|_]; [lia|].
  rewrite Hparse, Hperiod, Hextra, Hsel.
  rewrite bool_decide_eq_true_2 by done.
  by rewrite (auto_select_none _ _ Hauto).
Qed.

(** ** Properties of [propagate_clocks] *)

Lemma PropagateClocksCmd_execute_result args (s : Session) :
  PropagateClocksCmd_execute args s = propagate_clocks_result args s.
Proof.
  unfold PropagateClocksCmd_execute, propagate_clocks_result, run_passes. cmd_unfold.
  destruct (1 <? length args); cbn [design add_log];
    (destruct (top_module (design s)) as [top|]; cbn [bool_decide decide];
     [rewrite bool_decide_eq_false_2 by done|done]);
    cbn [pass_class clocks_state add_call add_log set_clocks_state];
    (destruct (Propagation_Run _ _) as [r1|e]; [|done]);
    (destruct (Propagation_Run _ _) as [r2|e]; [|done]);
    by destruct (Clocks_UpdateAbc9DelayTarget _ _).
Qed.

(** C5. Without a top module [propagate_clocks] fails with [NoTopModule]:
    no call into the propagation passes or the clock library has been made,
    the state of the clock library and the design are as before, and the
    Tcl command reports an error. *)
Theorem propagate_clocks_no_top_module (args : list string) (s : Session) :
  top_module (design s) = None ->
  exists s',
    PropagateClocksCmd_execute args s = (s', Thrown NoTopModule)
    /\ calls s' = calls s
    /\ clocks_state s' = clocks_state s
    /\ design s' = design s
    /\ (tcl_command propagate_clocks args s).2 = TCL_ERROR.
Proof.
  intros Htop.
  exists (if 1 <? length args then add_log arguments_warning s else s).
  unfold tcl_command, execute.
  rewrite PropagateClocksCmd_execute_result. unfold propagate_clocks_result.
  rewrite Htop. by destruct (1 <? length args).
Qed.

(** C6. A successful [propagate_clocks] makes exactly three calls, in this
    order: [Run] of the buffer propagation, [Run] of the clock divider
    propagation, and one [UpdateAbc9DelayTarget]; each acts on the state
    the previous one returned. *)
Theorem propagate_clocks_pass_order (args : list string) (s s' : Session) :
  PropagateClocksCmd_execute args s = (s', Done tt) ->
  calls s' = calls s ++ [Call_Run BufferPropagation;
                         Call_Run ClockDividerPropagation;
                         Call_UpdateAbc9DelayTarget]
  /\ exists r1 r2,
      Propagation_Run (new_Propagation BufferPropagation (design s)) (clocks_state s)
        = Done r1
      /\ Propagation_Run (new_Propagation ClockDividerPropagation (design s)) r1
        = Done r2
      /\ Clocks_UpdateAbc9DelayTarget (design s) r2 = Done (clocks_state s').
Proof.
  rewrite PropagateClocksCmd_execute_result. unfold propagate_clocks_result.
  destruct (top_module _); [|done].
  destruct (Propagation_Run _ _) as [r1|e] eqn:Hbuf; [|done].
  destruct (Propagation_Run _ r1) as [r2|e] eqn:Hdiv; [|done].
  destruct (Clocks_UpdateAbc9DelayTarget _ _) as [r3|e] eqn:Hupd; [|done].
  intros Hexec. inversion Hexec; subst s'. clear Hexec. split.
  - destruct (1 <? length args); cbn [calls set_clocks_state add_call add_log];
      by rewrite <- !(assoc_L (++)).
  - by exists r1, r2.
Qed.

(** ** Properties of [get_clocks] *)

Lemma add_logs_nil (s : Session) : add_logs [] s = s.
Proof. destruct s. unfold add_logs. cbn. by rewrite app_nil_r. Qed.

Lemma add_logs_cons e es (s : Session) : add_logs es (add_log e s) = add_logs (e :: es) s.
Proof. unfold add_logs, add_log. cbn. by rewrite <- (assoc_L (++)). Qed.

Lemma log_lines_result names :
  forall s : Session,
    log_lines names s = (add_logs (List.map (fun n => Log (n +:+ nl)) names) s, Done tt).
Proof.
  induction names as [|n names IH]; intros s; cbn [log_lines List.map].
  - by rewrite add_logs_nil.
  - cmd_unfold. by rewrite IH, add_logs_cons.
Qed.

(** The Tcl list holds, clock after clock, the entry of
    [logical_to_wire_map] for the name of the clock's wire, when there is
    one. *)
Lemma logical_names_omap m clocks :
  logical_names m clocks = omap (fun clock => m !! id2cstr (wire_name clock.2)) clocks.
Proof.
  unfold logical_names.
  enough (H : forall acc,
             foldl (append_logical_name m) acc clocks
             = acc ++ omap (fun clock => m !! id2cstr (wire_name clock.2)) clocks)
    by apply (H []).
  induction clocks as [|clock clocks IH]; intros acc; simpl.
  - by rewrite app_nil_r.
  - rewrite IH. unfold append_logical_name.
    destruct (m !! _); [by rewrite <- (assoc_L (++))|done].
Qed.

Lemma GetClocksCmd_execute_result args (s : Session) :
  GetClocksCmd_execute args s = get_clocks_result args s.
Proof.
  unfold GetClocksCmd_execute, get_clocks_result. cmd_unfold.
  destruct (parse_get_clocks _ _) as [l|e]; [|done].
  cbn [design clocks_state add_call].
  destruct (length _ =? 0);
    cbn [tcl_interp add_log add_call logical_to_wire_map];
    (destruct (tcl_interp s) as [o|]; cbn [bool_decide decide];
     [rewrite bool_decide_eq_false_2 by done|done]);
    by rewrite log_lines_result.
Qed.

(** C9. On a design without clocks a [get_clocks] call whose switches are
    accepted, made where a Tcl interpreter exists, returns normally: the
    Tcl result is the empty list and the log has received the warnings
    "No clocks found in design" and "No clocks found in design after
    processing". *)
Theorem get_clocks_no_clocks (args : list string) (s : Session)
    (l : GetClocksLocals) (o : Tcl_Obj) :
  parse_get_clocks (drop 1 args) (mkGetClocksLocals 1 false []) = Done l ->
  tcl_interp s = Some o ->
  Clocks_GetClocks (design s) (clocks_state s) = [] ->
  exists s' lines,
    GetClocksCmd_execute args s = (s', Done tt)
    /\ tcl_interp s' = Some (Tcl_ListObj [])
    /\ log_output s' = log_output s ++ [no_clocks_warning] ++ List.map Log lines
                                    ++ [no_clocks_after_warning]
    /\ (tcl_command get_clocks args s).2 = TCL_OK.
Proof.
  intros Hparse Hinterp Hclocks.
  unfold tcl_command, execute.
  rewrite GetClocksCmd_execute_result. unfold get_clocks_result.
  rewrite Hparse, Hinterp, Hclocks. cbn [length Nat.eqb].
  eexists _, (List.map (fun n => n +:+ nl) (words "" (Tcl_GetString (Tcl_ListObj [])))).
  split_and!; [done|done| |done].
  cbn [log_output add_log add_logs set_tcl_interp add_call logical_names foldl].
  rewrite List.map_map. by rewrite <- !(assoc_L (++)).
Qed.

(** ** What the commands leave alone *)

(** No command of this file writes [logical_to_wire_map]:
    [create_clock_with_name] is its only writer and nothing calls it.
    [GetClocksCmd] is declared in the private namespace of the file, so no
    other compilation unit reaches the map either. *)
Lemma create_clock_keeps_map args (s : Session) :
  logical_to_wire_map (CreateClockCmd_execute args s).1 = logical_to_wire_map s.
Proof.
  rewrite CreateClockCmd_execute_result. unfold create_clock_result.
  repeat (case_match; try done).
Qed.

Lemma get_clocks_keeps_map args (s : Session) :
  logical_to_wire_map (GetClocksCmd_execute args s).1 = logical_to_wire_map s.
Proof.
  rewrite GetClocksCmd_execute_result. unfold get_clocks_result.
  repeat (case_match; try done).
Qed.

Lemma propagate_clocks_keeps_map args (s : Session) :
  logical_to_wire_map (PropagateClocksCmd_execute args s).1 = logical_to_wire_map s.
Proof.
  rewrite PropagateClocksCmd_execute_result. unfold propagate_clocks_result.
  repeat (case_match; try done).
Qed.

Lemma tcl_command_keeps_map pass objv (s : Session) :
  logical_to_wire_map (tcl_command pass objv s).1 = logical_to_wire_map s.
Proof.
  unfold tcl_command.
  assert (H : logical_to_wire_map (execute pass objv s).1 = logical_to_wire_map s).
  { destruct pass; cbn [execute];
      [apply create_clock_keeps_map|apply get_clocks_keeps_map
      |apply propagate_clocks_keeps_map]. }
  destruct (execute pass objv s) as [s' [[]|[msg|what]]]; cbn [fst] in *; done.
Qed.

Lemma run_script_keeps_map script :
  forall s : Session, logical_to_wire_map (run_script script s) = logical_to_wire_map s.
Proof.
  unfold run_script.
  induction script as [|cmd script IH]; intros s; cbn [foldl]; [done|].
  by rewrite IH, tcl_command_keeps_map.
Qed.

(** C10. [get_clocks] returns, clock after clock, the logical name that
    [logical_to_wire_map] holds for the name of the clock's wire and leaves
    out every clock whose wire has no entry.  In a session that starts with
    the map empty, as its static initialisation leaves it, no script of
    [create_clock], [get_clocks] and [propagate_clocks] commands gives it an
    entry, so [get_clocks] returns the empty list whatever clocks the
    design has. *)
Theorem get_clocks_omits_created_clocks
    (script : list (Pass * list string)) (args : list string) (s s' : Session) :
  logical_to_wire_map s = ∅ ->
  GetClocksCmd_execute args (run_script script s) = (s', Done tt) ->
  let s1 := run_script script s in
  tcl_interp s' =
    Some (Tcl_ListObj
            (omap (fun clock => logical_to_wire_map s1 !! id2cstr (wire_name clock.2))
                  (Clocks_GetClocks (design s1) (clocks_state s1))))
  /\ logical_to_wire_map s1 = ∅
  /\ tcl_interp s' = Some (Tcl_ListObj []).
Proof.
  intros Hempty Hexec s1.
  assert (Hmap : logical_to_wire_map s1 = ∅)
    by (unfold s1; by rewrite run_script_keeps_map).
  fold s1 in Hexec.
  rewrite GetClocksCmd_execute_result in Hexec. unfold get_clocks_result in Hexec.
  destruct (parse_get_clocks _ _); [|done].
  destruct (tcl_interp s1); [|done].
  rewrite logical_names_omap in Hexec.
  assert (Hres : tcl_interp s' =
                 Some (Tcl_ListObj
                         (omap (fun clock =>
                                  logical_to_wire_map s1 !! id2cstr (wire_name clock.2))
                               (Clocks_GetClocks (design s1) (clocks_state s1))))).
  { inversion Hexec as [Hs']. by destruct (length _ =? 0). }
  split_and!; [done|done|].
  rewrite Hres, Hmap. do 2 f_equal. clear.
  induction (Clocks_GetClocks _ _) as [|clock clocks IH]; [done|].
  simpl. by rewrite lookup_empty.
Qed.


(** ** The argument vectors *)

(** X1. [AddWirePrefix] leaves the length of the argument vector and the
    arguments before [argidx] as they are and puts [w:] before each later
    one, so that none of the targets handed to [extra_args] reads as a
    switch. *)
Theorem AddWirePrefix_targets (args : list string) (argidx : nat) :
  argidx <= length args ->
  length (AddWirePrefix args argidx) = length args
  /\ take argidx (AddWirePrefix args argidx) = take argidx args
  /\ drop argidx (AddWirePrefix args argidx)
     = List.map (fun w => "w:" +:+ w) (drop argidx args)
  /\ Forall (fun arg => is_switch arg = false)
            (drop argidx (AddWirePrefix args argidx)).
Proof.
  intros Hidx. unfold AddWirePrefix.
  assert (Hlen : length (take argidx args) = argidx) by (rewrite length_take; lia).
  split_and!.
  - rewrite length_app, List.length_map, Hlen, length_drop. lia.
  - by rewrite take_app_length'.
  - by rewrite drop_app_length'.
  - rewrite drop_app_length' by done.
    induction (drop argidx args) as [|w ws IH]; cbn [List.map]; by constructor.
Qed.

Lemma parse_create_clock_argidx rest :
  forall l l',
    parse_create_clock rest l = Done l' ->
    argidx l <= argidx l' <= argidx l + length rest.
Proof.
  induction rest as [|arg|arg value rest IH2 IH1] using list_ind_pairs; intros l l' Hparse.
  - inversion Hparse. cbn [length]. lia.
  - inversion Hparse. cbn [length]. lia.
  - rewrite parse_create_clock_step in Hparse. cbn [length] in *.
    destruct (bool_decide (arg = "-add")).
    { apply IH1 in Hparse. cbn [argidx length] in Hparse. lia. }
    destruct (bool_decide (arg = "-name")).
    { apply IH2 in Hparse. cbn [argidx] in Hparse. lia. }
    destruct (bool_decide (arg = "-period")).
    { destruct (stof value); [|done]. apply IH2 in Hparse.
      cbn [argidx] in Hparse. lia. }
    destruct (bool_decide (arg = "-waveform")).
    { apply IH2 in Hparse. cbn [argidx] in Hparse. lia. }
    inversion Hparse. lia.
Qed.

Lemma parse_get_clocks_argidx rest :
  forall l l',
    parse_get_clocks rest l = Done l' ->
    gc_argidx l <= gc_argidx l' <= gc_argidx l + length rest.
Proof.
  induction rest as [|arg|arg value rest IH2 IH1] using list_ind_pairs; intros l l' Hparse.
  - inversion Hparse. cbn [length]. lia.
  - cbn [parse_get_clocks length] in *.
    destruct (bool_decide (arg = "-include_generated_clocks")).
    + inversion Hparse. cbn [gc_argidx]. lia.
    + destruct (is_switch arg); [done|]. inversion Hparse. lia.
  - cbn [parse_get_clocks] in Hparse. cbn [length] in *.
    destruct (bool_decide (arg = "-include_generated_clocks")).
    { apply IH1 in Hparse. cbn [gc_argidx length] in Hparse. lia. }
    destruct (bool_decide (arg = "-of")).
    { apply IH2 in Hparse. cbn [gc_argidx] in Hparse. lia. }
    destruct (is_switch arg); [done|]. inversion Hparse. lia.
Qed.

Lemma parse_write_sdc_step arg value rest st :
  parse_write_sdc (arg :: value :: rest) st =
    if bool_decide (arg = "-include_propagated_clocks")
    then parse_write_sdc (value :: rest) (true, S st.2)
    else st.
Proof. reflexivity. Qed.

Lemma parse_write_sdc_argidx rest :
  forall st,
    st.2 <= (parse_write_sdc rest st).2 <= st.2 + (length rest - 1).
Proof.
  induction rest as [|arg|arg value rest IH2 IH1] using list_ind_pairs; intros st.
  - cbn. lia.
  - cbn. lia.
  - rewrite parse_write_sdc_step. cbn [length].
    destruct (bool_decide (arg = "-include_propagated_clocks")); [|lia].
    specialize (IH1 (true, S st.2)). cbn [snd length] in IH1. lia.
Qed.

(** X2. The option loops of [create_clock], [get_clocks] and [write_sdc]
    end with [argidx] inside the argument vector: at least [1], at most
    its length, so that the iterators [args.begin() + argidx] built from it
    are in range. *)
Theorem option_loops_stay_in_bounds (args : list string) :
  args <> [] ->
  (forall l, parse_create_clock (drop 1 args) initial_locals = Done l ->
             1 <= argidx l <= length args)
  /\ (forall l, parse_get_clocks (drop 1 args) (mkGetClocksLocals 1 false []) = Done l ->
                1 <= gc_argidx l <= length args)
  /\ 1 <= (parse_write_sdc (drop 1 args) (false, 1)).2 <= length args.
Proof.
  intros Hargs. destruct args as [|arg0 args]; [done|].
  change (drop 1 (arg0 :: args)) with args. cbn [length].
  split; [|split].
  - intros l Hparse%parse_create_clock_argidx. cbn [argidx initial_locals] in Hparse. lia.
  - intros l Hparse%parse_get_clocks_argidx. cbn [gc_argidx] in Hparse. lia.
  - pose proof (parse_write_sdc_argidx args (false, 1)) as H. cbn [snd] in H. lia.
Qed.

(** X3. The [std::copy_if] applied to a waveform keeps every character:
    its predicate [c != '{' or c != '}'] holds of all of them, so braces
    around a waveform are not removed before the edges are read. *)
Theorem waveform_braces_are_kept (edges : string) :
  copy_if_in_place waveform_pred edges = edges.
Proof.
  unfold copy_if_in_place.
  assert (Hall : forall l, List.filter waveform_pred l = l).
  { intros l. induction l as [|c l IH]; [done|]. cbn [List.filter].
    assert (Hc : waveform_pred c = true).
    { unfold waveform_pred. do 2 case_bool_decide; try done. by subst. }
    by rewrite Hc, IH. }
  rewrite Hall, drop_all, app_nil_r.
  apply String.string_of_list_ascii_of_string.
Qed.

(** ** Words *)

Lemma list_ascii_of_string_app (a b : string) :
  String.list_ascii_of_string (a +:+ b)
  = String.list_ascii_of_string a ++ String.list_ascii_of_string b.
Proof.
  induction a as [|c a IH]; [done|].
  change (String.list_ascii_of_string (String c (a +:+ b))
          = (c :: String.list_ascii_of_string a) ++ String.list_ascii_of_string b).
  cbn [String.list_ascii_of_string app]. by rewrite IH.
Qed.

Lemma string_app_nil_r (a : string) : a +:+ "" = a.
Proof.
  induction a as [|c a IH]; [done|].
  change (String c (a +:+ "") = String c a). by rewrite IH.
Qed.

Lemma string_app_assoc (a b c : string) : (a +:+ b) +:+ c = a +:+ (b +:+ c).
Proof.
  induction a as [|x a IH]; [done|].
  change (String x ((a +:+ b) +:+ c) = String x (a +:+ (b +:+ c))). by rewrite IH.
Qed.

Lemma string_app_nil (a b : string) : a +:+ b = "" -> a = "" /\ b = "".
Proof. by destruct a. Qed.

Lemma words_are_words s :
  forall cur,
    forallb (fun c => negb (isspace c)) (String.list_ascii_of_string cur) = true ->
    Forall (fun w => is_word w = true) (words cur s).
Proof.
  induction s as [|c s IH]; intros cur Hcur.
  - cbn [words]. case_bool_decide as Hempty; [done|].
    apply Forall_singleton. unfold is_word.
    by rewrite (bool_decide_eq_false_2 _ Hempty), Hcur.
  - cbn [words]. destruct (isspace c) eqn:Hc.
    + case_bool_decide as Hempty; [by apply IH|].
      apply Forall_cons. split; [|by apply IH].
      unfold is_word. by rewrite (bool_decide_eq_false_2 _ Hempty), Hcur.
    + apply IH. rewrite list_ascii_of_string_app, forallb_app, Hcur.
      cbn. by rewrite Hc.
Qed.

Lemma words_nil s :
  forall cur, words cur s = [] <-> cur = "" /\ at_end s = true.
Proof.
  induction s as [|c s IH]; intros cur.
  - cbn [words]. case_bool_decide as Hempty; [done|].
    split; [done|]. by intros [? _].
  - cbn [words].
    change (at_end (String c s)) with (isspace c && at_end s).
    destruct (isspace c); cbn [andb].
    + case_bool_decide as Hempty.
      * rewrite IH. split; [by intros [_ ?]|by intros [_ ?]].
      * split; [done|]. by intros [? _].
    + rewrite IH. split; [|by intros [_ ?]].
      intros [Happ _]. by apply string_app_nil in Happ as [_ ?].
Qed.

Lemma words_chars s :
  forall cur,
    List.flat_map String.list_ascii_of_string (words cur s)
    = String.list_ascii_of_string cur
        ++ List.filter (fun c => negb (isspace c)) (String.list_ascii_of_string s).
Proof.
  induction s as [|c s IH]; intros cur.
  - cbn [words String.list_ascii_of_string List.filter]. rewrite app_nil_r.
    case_bool_decide as Hempty; [by subst|].
    cbn [List.flat_map]. by rewrite app_nil_r.
  - cbn [words String.list_ascii_of_string List.filter].
    destruct (isspace c); cbn [negb].
    + case_bool_decide as Hempty.
      * subst. by rewrite IH.
      * cbn [List.flat_map]. by rewrite IH.
    + rewrite IH, list_ascii_of_string_app, <- app_assoc. done.
Qed.

(** X4. Every word that [extract_list] returns is non-empty and holds no
    white space.  There is no word exactly when the string is empty or
    blank, and the words hold, in order, the characters of the string that
    are not white space. *)
Theorem extract_list_words (args : string) :
  Forall (fun w => is_word w = true) (extract_list args)
  /\ (extract_list args = []
      <-> forallb isspace (String.list_ascii_of_string args) = true)
  /\ List.flat_map String.list_ascii_of_string (extract_list args)
     = List.filter (fun c => negb (isspace c)) (String.list_ascii_of_string args).
Proof.
  unfold extract_list. split_and!.
  - by apply words_are_words.
  - rewrite words_nil. unfold at_end. split; [by intros [_ ?]|done].
  - by rewrite words_chars.
Qed.

Lemma words_word w :
  forall cur rest,
    forallb (fun c => negb (isspace c)) (String.list_ascii_of_string w) = true ->
    words cur (w +:+ rest) = words (cur +:+ w) rest.
Proof.
  induction w as [|c w IH]; intros cur rest Hw.
  - by rewrite string_app_nil_r.
  - cbn [String.list_ascii_of_string forallb] in Hw. apply andb_prop in Hw as [Hc Hw].
    apply negb_true_iff in Hc.
    change (String c w +:+ rest) with (String c (w +:+ rest)).
    cbn [words]. rewrite Hc, IH by done.
    rewrite string_app_assoc. by change (String c "" +:+ w) with (String c w).
Qed.

Lemma words_space cur rest :
  words cur (" " +:+ rest)
  = if bool_decide (cur = "") then words "" rest else cur :: words "" rest.
Proof. reflexivity. Qed.

(** X5. Splitting undoes joining: [extract_list] applied to words joined by
    single spaces returns these words, in order. *)
Theorem extract_list_concat (ws : list string) :
  Forall (fun w => is_word w = true) ws ->
  extract_list (String.concat " " ws) = ws.
Proof.
  unfold extract_list. induction 1 as [|w ws Hw Hws IH]; [done|].
  unfold is_word in Hw. apply andb_prop in Hw as [Hne Hw].
  apply negb_true_iff, bool_decide_eq_false in Hne.
  destruct ws as [|w' ws].
  - change (String.concat " " [w]) with w.
    rewrite <- (string_app_nil_r w) at 1.
    rewrite words_word by done.
    change ("" +:+ w) with w. cbn [words]. by rewrite bool_decide_eq_false_2.
  - change (String.concat " " (w :: w' :: ws))
      with (w +:+ (" " +:+ String.concat " " (w' :: ws))).
    rewrite words_word by done. change ("" +:+ w) with w.
    rewrite words_space, bool_decide_eq_false_2 by done. by rewrite IH.
Qed.

(** ** More on [get_clocks] *)

(** X6. A [get_clocks] call whose switches are accepted does the same
    whatever they are: [-include_generated_clocks], the nets after [-of]
    and the patterns change neither the result nor the session. *)
Theorem get_clocks_ignores_arguments (args1 args2 : list string) (s : Session)
    (l1 l2 : GetClocksLocals) :
  parse_get_clocks (drop 1 args1) (mkGetClocksLocals 1 false []) = Done l1 ->
  parse_get_clocks (drop 1 args2) (mkGetClocksLocals 1 false []) = Done l2 ->
  GetClocksCmd_execute args1 s = GetClocksCmd_execute args2 s.
Proof.
  intros H1 H2. rewrite !GetClocksCmd_execute_result. unfold get_clocks_result.
  by rewrite H1, H2.
Qed.


(** On the design of the session, and with the [Clocks::GetClocks] of the
    library, which returns, the command with the pointer is the command of
    the session. *)
Lemma GetClocksCmd_execute_ptr_session args (s : Session) :
  GetClocksCmd_execute_ptr (fun d r => Done (Clocks_GetClocks d r)) (Some (design s)) args s
  = GetClocksCmd_execute args s.
Proof.
  unfold GetClocksCmd_execute_ptr, GetClocksCmd_execute. cmd_unfold.
  by destruct (parse_get_clocks _ _) as [l|e].
Qed.


Lemma GetClocksCmd_execute_names args (s s' : Session) :
  GetClocksCmd_execute args s = (s', Done tt) ->
  tcl_interp s' =
    Some (Tcl_ListObj
            (omap (fun clock => logical_to_wire_map s !! id2cstr (wire_name clock.2))
                  (Clocks_GetClocks (design s) (clocks_state s)))).
Proof.
  rewrite GetClocksCmd_execute_result. unfold get_clocks_result.
  destruct (parse_get_clocks _ _); [|done].
  destruct (tcl_interp s); [|done].
  rewrite logical_names_omap. intros Hexec. inversion Hexec.
  by destruct (length _ =? 0).
Qed.

(** X8. Once [create_clock_with_name] has recorded a logical name for a
    wire name, [get_clocks] lists that logical name for every clock on a
    wire of that name, in place of any name recorded before, and the other
    clocks are listed as before. *)
Theorem get_clocks_after_create_clock_with_name
    (logical_name w : string) (args : list string) (s s' : Session) :
  GetClocksCmd_execute args (create_clock_with_name logical_name w s).1 = (s', Done tt) ->
  exists names,
    tcl_interp s' = Some (Tcl_ListObj names)
    /\ names = omap (fun clock =>
                       if bool_decide (id2cstr (wire_name clock.2) = w)
                       then Some logical_name
                       else logical_to_wire_map s !! id2cstr (wire_name clock.2))
                    (Clocks_GetClocks (design s) (clocks_state s))
    /\ (forall clock, clock ∈ Clocks_GetClocks (design s) (clocks_state s) ->
                      id2cstr (wire_name clock.2) = w -> logical_name ∈ names).
Proof.
  intros Hexec%GetClocksCmd_execute_names.
  cbn [create_clock_with_name modify fst design clocks_state logical_to_wire_map
       set_logical_to_wire_map] in Hexec.
  eexists. split; [exact Hexec|].
  assert (Heq : forall clocks : list (string * Wire),
             omap (fun clock => <[w:=logical_name]> (logical_to_wire_map s)
                                !! id2cstr (wire_name clock.2)) clocks
             = omap (fun clock =>
                       if bool_decide (id2cstr (wire_name clock.2) = w)
                       then Some logical_name
                       else logical_to_wire_map s !! id2cstr (wire_name clock.2)) clocks).
  { intros clocks. induction clocks as [|clock clocks IH]; [done|]. simpl.
    rewrite lookup_insert.
    case_decide; case_bool_decide; try congruence;
      [by f_equal|destruct (logical_to_wire_map s !! _); [by f_equal|done]]. }
  rewrite Heq. split; [done|].
  intros clock Hin Hw. apply list_elem_of_omap. exists clock. split; [done|].
  by rewrite bool_decide_eq_true_2.
Qed.

(** ** More on [create_clock] *)

Lemma read_waveform_name edges l : name (read_waveform edges l) = name l.
Proof.
  unfold read_waveform. destruct (at_end edges); [done|].
  by destruct (extract_float edges) as [[r ok] rest].
Qed.

(** The option loop sets [name] only on a [-name] switch. *)
Lemma parse_create_clock_no_name rest :
  forall l l',
    "-name" ∉ rest ->
    parse_create_clock rest l = Done l' ->
    name l' = name l.
Proof.
  induction rest as [|arg|arg value rest IH2 IH1] using list_ind_pairs;
    intros l l' Hnotin Hparse.
  - by inversion Hparse.
  - by inversion Hparse.
  - rewrite parse_create_clock_step in Hparse.
    pose proof Hnotin as Hnotin'.
    apply not_elem_of_cons in Hnotin' as [Harg Hnotin'].
    pose proof Hnotin' as Hnotin''.
    apply not_elem_of_cons in Hnotin'' as [Hvalue Hnotin''].
    destruct (bool_decide (arg = "-add")).
    { by apply IH1 in Hparse. }
    case_bool_decide; [by subst|].
    destruct (bool_decide (arg = "-period")).
    { destruct (stof value); [|done]. by apply IH2 in Hparse. }
    destruct (bool_decide (arg = "-waveform")).
    { apply IH2 in Hparse; [|done]. cbn [name] in Hparse.
      by rewrite read_waveform_name in Hparse. }
    by inversion Hparse.
Qed.

(** X9. A successful [create_clock] whose arguments hold no [-name] names
    the clock after the first wire of its target: [Clock::Add] receives
    [unescape_id] of that wire's name. *)
Theorem create_clock_default_name (args : list string) (s s' : Session) :
  "-name" ∉ args ->
  CreateClockCmd_execute args s = (s', Done tt) ->
  exists wire wires period rising falling,
    calls s' = calls s ++ [Call_Clock_Add (unescape_id (wire_name wire)) (wire :: wires)
                                          period rising falling EXPLICIT].
Proof.
  intros Hnn Hexec.
  rewrite CreateClockCmd_execute_result in Hexec. unfold create_clock_result in Hexec.
  destruct (length args <? 4); [done|].
  destruct (parse_create_clock _ _) as [l|e] eqn:Hparse; [|done].
  destruct (Float32.leb _ _); [done|].
  destruct (extra_args _ _ _) as [d|e]; [|done].
  assert (Hname : name l = "").
  { apply parse_create_clock_no_name in Hparse; [done|].
    destruct args as [|arg0 args]; [done|].
    by apply not_elem_of_cons in Hnn as [_ Hnn]. }
  cbv zeta in Hexec. rewrite Hname in Hexec.
  rewrite (bool_decide_eq_true_2 ("" = "")) in Hexec by done.
  destruct (_.2) as [|wire found] eqn:Hfound; [done|].
  destruct (Clock_Add _ _ _ _ _ _ _) as [r|e]; [|done].
  inversion Hexec. by eexists wire, found, _, _, _.
Qed.

(** The option loop throws only what [std::stof] throws on the value of a
    [-period] switch. *)
Lemma parse_create_clock_thrown rest :
  forall l e,
    parse_create_clock rest l = Thrown e ->
    exists i value,
      rest !! i = Some "-period" /\ rest !! S i = Some value /\ stof value = Thrown e.
Proof.
  induction rest as [|arg|arg value rest IH2 IH1] using list_ind_pairs; intros l e Hparse.
  - done.
  - done.
  - rewrite parse_create_clock_step in Hparse.
    destruct (bool_decide (arg = "-add")).
    { apply IH1 in Hparse as (i & v & ?). by exists (S i), v. }
    destruct (bool_decide (arg = "-name")).
    { apply IH2 in Hparse as (i & v & ?). by exists (S (S i)), v. }
    case_bool_decide as Hperiod.
    { destruct (stof value) as [p|e'] eqn:Hstof.
      - apply IH2 in Hparse as (i & v & ?). by exists (S (S i)), v.
      - inversion Hparse; subst. by exists 0, value. }
    destruct (bool_decide (arg = "-waveform")); [|done].
    apply IH2 in Hparse as (i & v & ?). by exists (S (S i)), v.
Qed.

(** X10. When [std::stof] throws on the value of a [-period] switch, a
    [create_clock] call of at least four arguments stops with that
    exception and the session as it was; the Tcl command returns
    [TCL_ERROR]. *)
Theorem create_clock_bad_number (args : list string) (s : Session) (e : Exception) :
  4 <= length args ->
  parse_create_clock (drop 1 args) initial_locals = Thrown e ->
  CreateClockCmd_execute args s = (s, Thrown e)
  /\ (exists i value,
        args !! i = Some "-period" /\ args !! S i = Some value /\ stof value = Thrown e)
  /\ (tcl_command create_clock args s).2 = TCL_ERROR.
Proof.
  intros Hlen Hparse.
  assert (Hexec : CreateClockCmd_execute args s = (s, Thrown e)).
  { rewrite CreateClockCmd_execute_result. unfold create_clock_result.
    destruct (Nat.ltb_spec (length args) 4) as [?|_]; [lia|]. by rewrite Hparse. }
  split_and!; [done| |].
  - apply parse_create_clock_thrown in Hparse as (i & value & Hi & Hv & Hstof).
    destruct args as [|arg0 args]; [done|]. by exists (S i), value.
  - unfold tcl_command, execute. rewrite Hexec. by destruct e.
Qed.

(** X11. Whatever its arguments, [create_clock] makes at most one call to
    [Clock::Add], its last action: the target holds at least one wire,
    the kind is [EXPLICIT], and the period has passed the test
    [period <= 0], which lets through the positive numbers, plus infinity
    and NaN.  Without that call the clock state stays as it was. *)
Theorem create_clock_adds_at_most_one (args : list string) (s : Session) :
  (calls (CreateClockCmd_execute args s).1 = calls s
   /\ clocks_state (CreateClockCmd_execute args s).1 = clocks_state s)
  \/ exists name wire wires period rising falling,
       calls (CreateClockCmd_execute args s).1
       = calls s ++ [Call_Clock_Add name (wire :: wires) period rising falling EXPLICIT]
       /\ Float32.leb period Float32.zero = false
       /\ match period with
          | S754_nan | S754_infinity false | S754_finite false _ _ => True
          | _ => False
          end.
Proof.
  rewrite CreateClockCmd_execute_result. unfold create_clock_result.
  destruct (length args <? 4); [by left|].
  destruct (parse_create_clock _ _) as [l|e]; [|by left].
  destruct (Float32.leb _ _) eqn:Hperiod; [by left|].
  destruct (extra_args _ _ _) as [d|e]; [|by left].
  cbv zeta. destruct (_.2) as [|wire found]; [by left|].
  right. eexists _, wire, found, (period l), _, _.
  split_and!; [by destruct (Clock_Add _ _ _ _ _ _ _)|done|].
  by destruct (period l) as [[]|[]| |[] m x].
Qed.

(** ** Selecting wires *)

Lemma Selection_select_selected_module sel mn wn mn' :
  Selection_selected_module sel mn = true ->
  Selection_selected_module (Selection_select sel mn wn) mn'
  = Selection_selected_module sel mn'.
Proof.
  unfold Selection_selected_module, Selection_select.
  destruct (full_selection sel) eqn:Hfull; cbn [negb andb]; [by rewrite Hfull|].
  destruct (bool_decide (mn ∈ selected_modules sel)) eqn:Hmod; cbn [negb andb];
    [by rewrite Hfull|].
  cbn [orb full_selection selected_modules selected_members].
  intros Hmem%bool_decide_eq_true. f_equal.
  apply bool_decide_ext. rewrite lookup_insert_is_Some'.
  split; [intros [<-|?]; done|by right].
Qed.

Lemma Selection_select_selected_member sel mn wn :
  Selection_selected_member (Selection_select sel mn wn) mn wn = true.
Proof.
  unfold Selection_selected_member, Selection_select.
  destruct (full_selection sel) eqn:Hfull; cbn [negb andb]; [by rewrite Hfull|].
  destruct (bool_decide (mn ∈ selected_modules sel)) eqn:Hmod; cbn [negb andb].
  { by rewrite Hfull, Hmod. }
  cbn [orb full_selection selected_modules selected_members].
  rewrite Hmod, lookup_insert_eq. cbn [orb].
  apply bool_decide_eq_true_2. set_solver.
Qed.

Lemma Selection_select_selected_member_mono sel mn wn mn' wn' :
  Selection_selected_member sel mn' wn' = true ->
  Selection_selected_member (Selection_select sel mn wn) mn' wn' = true.
Proof.
  unfold Selection_selected_member, Selection_select.
  destruct (full_selection sel) eqn:Hfull; cbn [negb andb]; [by rewrite Hfull|].
  destruct (bool_decide (mn ∈ selected_modules sel)) eqn:Hmod; cbn [negb andb].
  { by rewrite Hfull. }
  cbn [orb full_selection selected_modules selected_members].
  destruct (bool_decide (mn' ∈ selected_modules sel)); cbn [orb]; [done|].
  rewrite lookup_insert. destruct (decide (mn = mn')) as [<-|Hne]; [|done].
  destruct (selected_members sel !! mn) as [members|]; cbn [default]; [|done].
  intros Hin%bool_decide_eq_true. apply bool_decide_eq_true_2. set_solver.
Qed.

Lemma select_modules d m w : modules_ (select d m w) = modules_ d.
Proof. unfold select. by destruct (last (selection_stack d)). Qed.

Lemma select_selected_module d m w m' :
  selected_module d m = true ->
  selected_module (select d m w) m' = selected_module d m'.
Proof.
  unfold select.
  destruct (last (selection_stack d)) as [sel|] eqn:Hlast; [|done].
  unfold selected_module. cbn [selected_active_module selection_stack].
  rewrite last_snoc, Hlast.
  destruct (_ && _); [done|]. intros Hm.
  destruct (_ && _); [done|]. by apply Selection_select_selected_module.
Qed.

Lemma select_selected_member d m w :
  selected_module d m = true -> selected_member (select d m w) m w = true.
Proof.
  unfold select.
  destruct (last (selection_stack d)) as [sel|] eqn:Hlast.
  - unfold selected_module, selected_member.
    cbn [selected_active_module selection_stack]. rewrite last_snoc, Hlast.
    destruct (_ && _); [done|]. intros _. apply Selection_select_selected_member.
  - unfold selected_module, selected_member. rewrite Hlast. by destruct (_ && _).
Qed.

Lemma select_selected_member_mono d m w m' w' :
  selected_member d m' w' = true -> selected_member (select d m w) m' w' = true.
Proof.
  unfold select.
  destruct (last (selection_stack d)) as [sel|] eqn:Hlast; [|done].
  unfold selected_member. cbn [selected_active_module selection_stack].
  rewrite last_snoc, Hlast.
  destruct (_ && _); [done|]. apply Selection_select_selected_member_mono.
Qed.

(** What the loop over the wires of a selected module does. *)
Lemma auto_select_wires_facts name m wires :
  forall st,
    selected_module st.1 m = true ->
    let st' := foldl (auto_select_wire name m) st wires in
    st'.2 = st.2 ++ List.filter (fun w => bool_decide (wire_name w = name)) wires
    /\ modules_ st'.1 = modules_ st.1
    /\ (forall m', selected_module st'.1 m' = selected_module st.1 m')
    /\ (forall m' w', selected_member st.1 m' w' = true ->
                      selected_member st'.1 m' w' = true)
    /\ (forall w, w ∈ wires -> wire_name w = name -> selected_member st'.1 m w = true).
Proof.
  induction wires as [|wire wires IH]; intros st Hm; cbn [foldl List.filter].
  - split_and!; [by rewrite app_nil_r|done|done|done|].
    by intros w Hin%elem_of_nil.
  - rewrite auto_select_wire_step. case_bool_decide as Hname.
    + assert (Hm' : selected_module (select st.1 m wire, st.2 ++ [wire]).1 m = true).
      { cbn [fst]. by rewrite select_selected_module. }
      destruct (IH _ Hm') as (Hfound & Hmods & Hsel & Hmono & Hnew).
      cbn [fst snd] in *. split_and!.
      * by rewrite Hfound, <- (assoc_L (++)).
      * by rewrite Hmods, select_modules.
      * intros m'. by rewrite Hsel, select_selected_module.
      * intros m' w' Hw'. by apply Hmono, select_selected_member_mono.
      * intros w [->|Hin]%elem_of_cons Hw; [|by apply Hnew].
        by apply Hmono, select_selected_member.
    + destruct (IH _ Hm) as (Hfound & Hmods & Hsel & Hmono & Hnew).
      split_and!; [done|done|done|done|].
      intros w [->|Hin]%elem_of_cons Hw; [done|by apply Hnew].
Qed.

Lemma auto_select_module_step name st m :
  auto_select_module name st m =
    if selected_module st.1 m
    then foldl (auto_select_wire name m) st (wires_ m)
    else st.
Proof. reflexivity. Qed.

(** What the loop over the modules does, from the design [d] it starts
    with. *)
Lemma auto_select_modules_facts name d modules :
  forall st,
    (forall m', selected_module st.1 m' = selected_module d m') ->
    let st' := foldl (auto_select_module name) st modules in
    st'.2 = st.2 ++ List.flat_map
                      (fun m => if selected_module d m
                                then List.filter (fun w => bool_decide (wire_name w = name))
                                                 (wires_ m)
                                else []) modules
    /\ modules_ st'.1 = modules_ st.1
    /\ (forall m', selected_module st'.1 m' = selected_module d m')
    /\ (forall m' w', selected_member st.1 m' w' = true ->
                      selected_member st'.1 m' w' = true)
    /\ (forall m w, m ∈ modules -> selected_module d m = true -> w ∈ wires_ m ->
                    wire_name w = name -> selected_member st'.1 m w = true).
Proof.
  induction modules as [|m modules IH]; intros st Hst; cbn [foldl List.flat_map].
  - split_and!; [by rewrite app_nil_r|done|done|done|].
    by intros m w Hin%elem_of_nil.
  - rewrite auto_select_module_step, Hst.
    destruct (selected_module d m) eqn:Hm.
    + assert (Hm' : selected_module st.1 m = true) by by rewrite Hst.
      destruct (auto_select_wires_facts name m (wires_ m) st Hm')
        as (Hfound1 & Hmods1 & Hsel1 & Hmono1 & Hnew1).
      cbv zeta in Hfound1, Hmods1, Hsel1, Hmono1, Hnew1.
      set (st1 := foldl (auto_select_wire name m) st (wires_ m)) in *.
      assert (Hst1 : forall m', selected_module st1.1 m' = selected_module d m').
      { intros m'. by rewrite Hsel1. }
      destruct (IH st1 Hst1) as (Hfound & Hmods & Hsel & Hmono & Hnew).
      split_and!.
      * by rewrite Hfound, Hfound1, <- (assoc_L (++)).
      * by rewrite Hmods.
      * done.
      * intros m' w' Hw'. by apply Hmono, Hmono1.
      * intros m0 w [->|Hin]%elem_of_cons Hm0 Hw Hname; [|by apply Hnew].
        by apply Hmono, Hnew1.
    + destruct (IH st Hst) as (Hfound & Hmods & Hsel & Hmono & Hnew).
      split_and!; [done|done|done|done|].
      intros m0 w [->|Hin]%elem_of_cons Hm0 Hw Hname; [congruence|by apply Hnew].
Qed.

(** X12. The second pair of loops of [create_clock] collects, in order,
    exactly the wires of the selected modules that bear the clock name:
    selecting a wire on the way changes neither the modules nor which of
    them count as selected. *)
Theorem auto_select_collects (name : string) (d : Design) :
  (auto_select name d).2 = wires_named name d
  /\ modules_ (auto_select name d).1 = modules_ d
  /\ (forall m, selected_module (auto_select name d).1 m = selected_module d m).
Proof.
  destruct (auto_select_modules_facts name d (modules_ d) (d, []) (fun _ => eq_refl))
    as (Hfound & Hmods & Hsel & _ & _).
  by split_and!.
Qed.

(** X13. After these loops every wire of a selected module that bears the
    clock name is selected, and every wire that was selected before still
    is. *)
Theorem auto_select_selects (name : string) (d : Design) (m : Module_) (w : Wire) :
  m ∈ modules_ d ->
  selected_module d m = true ->
  w ∈ wires_ m ->
  wire_name w = name \/ selected_member d m w = true ->
  selected_member (auto_select name d).1 m w = true.
Proof.
  intros Hm Hsel Hw Hcase.
  destruct (auto_select_modules_facts name d (modules_ d) (d, []) (fun _ => eq_refl))
    as (_ & _ & _ & Hmono & Hnew).
  destruct Hcase as [Hname|Hold]; [by apply Hnew|by apply Hmono].
Qed.

Lemma selected_wires_of_elem d w :
  w ∈ selected_wires_of d ->
  exists m, m ∈ modules_ d /\ w ∈ wires_ m
            /\ selected_module d m = true /\ selected_member d m w = true.
Proof.
  unfold selected_wires_of. rewrite list_elem_of_In, List.in_flat_map.
  intros (m & Hm & Hw). destruct (selected_module d m) eqn:Hsel; [|done].
  apply List.filter_In in Hw as [Hw Hmem].
  exists m. by rewrite !list_elem_of_In.
Qed.

Lemma wires_named_elem name d w :
  w ∈ wires_named name d ->
  exists m, m ∈ modules_ d /\ w ∈ wires_ m
            /\ selected_module d m = true /\ wire_name w = name.
Proof.
  unfold wires_named. rewrite list_elem_of_In, List.in_flat_map.
  intros (m & Hm & Hw). destruct (selected_module d m) eqn:Hsel; [|done].
  apply List.filter_In in Hw as [Hw Hname%bool_decide_eq_true].
  exists m. by rewrite !list_elem_of_In.
Qed.

(** X14. After a successful [create_clock] every wire handed to
    [Clock::Add] is a wire of a selected module of the design the command
    leaves, and is selected there. *)
Theorem create_clock_targets_selected (args : list string) (s s' : Session) :
  CreateClockCmd_execute args s = (s', Done tt) ->
  exists name wires period rising falling,
    calls s' = calls s ++ [Call_Clock_Add name wires period rising falling EXPLICIT]
    /\ Forall (fun w => exists m, m ∈ modules_ (design s') /\ w ∈ wires_ m
                                  /\ selected_module (design s') m = true
                                  /\ selected_member (design s') m w = true) wires.
Proof.
  intros Hexec.
  rewrite CreateClockCmd_execute_result in Hexec. unfold create_clock_result in Hexec.
  destruct (length args <? 4); [done|].
  destruct (parse_create_clock _ _) as [l|e]; [|done].
  destruct (Float32.leb _ _); [done|].
  destruct (extra_args _ _ _) as [d|e]; [|done].
  cbv zeta in Hexec.
  set (st := if bool_decide (selected_wires_of d = [])
             then auto_select (name l) d else (d, selected_wires_of d)) in *.
  assert (Hst : Forall (fun w => exists m, m ∈ modules_ st.1 /\ w ∈ wires_ m
                                           /\ selected_module st.1 m = true
                                           /\ selected_member st.1 m w = true) st.2).
  { unfold st. apply Forall_forall. intros w Hw. case_bool_decide.
    - destruct (auto_select_modules_facts (name l) d (modules_ d) (d, [])
                  (fun _ => eq_refl)) as (Hfound & Hmods & Hsel & _ & Hnew).
      fold (auto_select (name l) d) in Hfound, Hmods, Hsel, Hnew.
      cbn [fst snd app] in Hfound, Hmods, Hsel, Hnew.
      rewrite Hfound in Hw. apply (wires_named_elem (name l) d) in Hw
        as (m & Hm & Hwm & Hselm & Hname).
      exists m. rewrite Hmods, Hsel. split_and!; [done|done|done|by apply Hnew].
    - by apply selected_wires_of_elem. }
  destruct (st.2) as [|wire found] eqn:Hfound; [done|].
  destruct (Clock_Add _ _ _ _ _ _ _) as [r|e]; [|done].
  inversion Hexec. eexists _, _, _, _, _. split; [done|]. exact Hst.
Qed.

(** ** More on [propagate_clocks] *)

(** X15. The arguments of [propagate_clocks] are ignored: the outcome, the
    calls into the clock library, the clock state and the design do not
    depend on them, and the log differs only by the warning that comes
    first when an argument is given. *)
Theorem propagate_clocks_ignores_arguments (s : Session) :
  exists outcome r c tail,
    forall args,
      (PropagateClocksCmd_execute args s).2 = outcome
      /\ clocks_state (PropagateClocksCmd_execute args s).1 = r
      /\ calls (PropagateClocksCmd_execute args s).1 = c
      /\ design (PropagateClocksCmd_execute args s).1 = design s
      /\ tcl_interp (PropagateClocksCmd_execute args s).1 = tcl_interp s
      /\ log_output (PropagateClocksCmd_execute args s).1
         = log_output s ++ (if 1 <? length args then [arguments_warning] else []) ++ tail.
Proof.
  exists (propagate_clocks_result [] s).2,
         (clocks_state (propagate_clocks_result [] s).1),
         (calls (propagate_clocks_result [] s).1),
         (drop (length (log_output s)) (log_output (propagate_clocks_result [] s).1)).
  intros args. rewrite PropagateClocksCmd_execute_result.
  unfold propagate_clocks_result.
  change (1 <? length (@nil string)) with false. cbv iota.
  destruct (top_module (design s)).
  - destruct (Propagation_Run _ _) as [r1|e].
    + destruct (Propagation_Run _ r1) as [r2|e].
      * destruct (Clocks_UpdateAbc9DelayTarget _ _) as [r3|e];
          destruct (1 <? length args);
          cbn [fst snd clocks_state calls design tcl_interp log_output
               add_call add_log set_clocks_state];
          rewrite ?drop_app_length, <- ?(assoc_L (++)); done.
      * destruct (1 <? length args);
          cbn [fst snd clocks_state calls design tcl_interp log_output
               add_call add_log set_clocks_state];
          rewrite ?drop_app_length, <- ?(assoc_L (++)); done.
    + destruct (1 <? length args);
        cbn [fst snd clocks_state calls design tcl_interp log_output
             add_call add_log set_clocks_state];
        rewrite ?drop_app_length, <- ?(assoc_L (++)); done.
  - destruct (1 <? length args);
      cbn [fst snd clocks_state calls design tcl_interp log_output add_log];
      rewrite drop_all, ?app_nil_r; done.
Qed.

(** X16. A [propagate_clocks] run that throws has stopped at its first
    failing step, and that step is the last call made.  Without a top
    module no call is made and the clock state is untouched.  Otherwise
    the exception is that of the buffer pass, or of the divider pass run
    on what the buffer pass returned, or of [UpdateAbc9DelayTarget] run on
    what the divider pass returned: the delay target is recomputed only
    when both passes have returned. *)
Theorem propagate_clocks_failures (args : list string) (s s' : Session) (e : Exception) :
  PropagateClocksCmd_execute args s = (s', Thrown e) ->
  let buffer := new_Propagation BufferPropagation (design s) in
  let divider := new_Propagation ClockDividerPropagation (design s) in
  (top_module (design s) = None /\ e = NoTopModule
   /\ calls s' = calls s /\ clocks_state s' = clocks_state s)
  \/ (is_Some (top_module (design s))
      /\ Propagation_Run buffer (clocks_state s) = Thrown e
      /\ calls s' = calls s ++ [Call_Run BufferPropagation])
  \/ (exists r1,
        is_Some (top_module (design s))
        /\ Propagation_Run buffer (clocks_state s) = Done r1
        /\ Propagation_Run divider r1 = Thrown e
        /\ calls s' = calls s ++ [Call_Run BufferPropagation;
                                  Call_Run ClockDividerPropagation])
  \/ (exists r1 r2,
        is_Some (top_module (design s))
        /\ Propagation_Run buffer (clocks_state s) = Done r1
        /\ Propagation_Run divider r1 = Done r2
        /\ Clocks_UpdateAbc9DelayTarget (design s) r2 = Thrown e
        /\ calls s' = calls s ++ [Call_Run BufferPropagation;
                                  Call_Run ClockDividerPropagation;
                                  Call_UpdateAbc9DelayTarget]).
Proof.
  rewrite PropagateClocksCmd_execute_result. unfold propagate_clocks_result.
  cbv zeta.
  destruct (top_module (design s)) as [top|].
  - destruct (Propagation_Run _ _) as [r1|e1] eqn:Hbuf.
    + destruct (Propagation_Run _ r1) as [r2|e2] eqn:Hdiv.
      * destruct (Clocks_UpdateAbc9DelayTarget _ _) as [r3|e3] eqn:Hupd; [done|].
        intros Hexec. inversion Hexec; subst. do 3 right. exists r1, r2.
        split_and!; [by eexists|done|done|done|].
        destruct (1 <? length args);
          cbn [calls add_call add_log set_clocks_state];
          by rewrite <- !(assoc_L (++)).
      * intros Hexec. inversion Hexec; subst. do 2 right. left. exists r1.
        split_and!; [by eexists|done|done|].
        destruct (1 <? length args);
          cbn [calls add_call add_log set_clocks_state];
          by rewrite <- !(assoc_L (++)).
    + intros Hexec. inversion Hexec; subst. right. left.
      split_and!; [by eexists|done|]; by destruct (1 <? length args).
  - intros Hexec. inversion Hexec; subst. left.
    split_and!; [done|done| |]; by destruct (1 <? length args).
Qed.

(** ** Properties of [get_ports] *)

Lemma log_objs_result names :
  forall s : Session,
    log_objs names s
    = (add_logs (List.map (fun n => Log (Tcl_GetString (Tcl_StringObj n) +:+ nl)) names) s,
       Done tt).
Proof.
  induction names as [|n names IH]; intros s; cbn [log_objs List.map].
  - by rewrite add_logs_nil.
  - cmd_unfold. by rewrite IH, add_logs_cons.
Qed.

Lemma port_names_elem top n :
  n ∈ port_names top
  <-> exists wire, wire ∈ wires_ top /\ port_id wire <> 0%Z
                   /\ id2cstr (wire_name wire) = n.
Proof.
  unfold port_names, is_port. rewrite list_elem_of_In, List.in_map_iff. split.
  - intros (wire & Hn & [Hin Hport]%List.filter_In). exists wire.
    split_and!; [by apply list_elem_of_In| |done].
    apply negb_true_iff in Hport. by apply Z.eqb_neq in Hport.
  - intros (wire & Hin & Hport & Hn). exists wire. split; [done|].
    apply List.filter_In. split; [by apply list_elem_of_In|].
    apply negb_true_iff. by apply Z.eqb_neq.
Qed.

(** X17. [get_ports] without a port name returns the list of the names of
    the ports of the top module, that is of its wires with a non-zero
    [port_id], in the order of the wires, and logs them one by one.  When
    there is no port the result is still the (empty) list, after the log
    line "No ports found".  Nothing but the result and the log changes. *)
Theorem get_ports_lists_ports (arg0 : string) (s : Session) (top : Module_) (o : Tcl_Obj) :
  top_module (design s) = Some top ->
  tcl_interp s = Some o ->
  exists s' names,
    GetPortsCmd_execute [arg0] s = (s', Done tt)
    /\ tcl_interp s' = Some (Tcl_ListObj names)
    /\ names = List.map (fun wire => id2cstr (wire_name wire))
                        (List.filter (fun wire => negb (port_id wire =? 0)%Z) (wires_ top))
    /\ (forall n, n ∈ names <-> exists wire, wire ∈ wires_ top /\ port_id wire <> 0%Z
                                             /\ id2cstr (wire_name wire) = n)
    /\ log_output s'
       = log_output s
           ++ (if bool_decide (names = [])
               then [Log ("Error:: No ports found for 'get_ports'" +:+ nl)] else [])
           ++ List.map (fun n => Log (Tcl_GetString (Tcl_StringObj n) +:+ nl)) names
    /\ design s' = design s /\ clocks_state s' = clocks_state s
    /\ calls s' = calls s /\ logical_to_wire_map s' = logical_to_wire_map s.
Proof.
  intros Htop Hinterp. unfold GetPortsCmd_execute. cmd_unfold. cbn [design].
  rewrite Htop. unfold Tcl_SetObjResult. cmd_unfold.
  destruct (bool_decide (port_names top = [])) eqn:Hnone;
    rewrite log_objs_result;
    cbn [tcl_interp add_logs add_log set_tcl_interp];
    rewrite Hinterp;
    (eexists _, (port_names top); split; [reflexivity|]);
    cbn [tcl_interp log_output design clocks_state calls logical_to_wire_map
         add_logs add_log set_tcl_interp];
    rewrite Hnone;
    (split_and!; [done|done|apply port_names_elem| |done|done|done|done]);
    by rewrite <- ?(assoc_L (++)).
Qed.

Lemma find_port_Some p top wire :
  find_port p top = Some wire -> id2cstr (wire_name wire) = p /\ p ∈ port_names top.
Proof.
  unfold find_port. intros [Hin [Hport Hname%bool_decide_eq_true]%andb_prop]%List.find_some.
  split; [done|]. unfold port_names. rewrite list_elem_of_In, List.in_map_iff.
  exists wire. split; [done|]. by apply List.filter_In.
Qed.

Lemma find_port_None p top : find_port p top = None -> p ∉ port_names top.
Proof.
  unfold find_port, port_names. intros Hfind.
  rewrite list_elem_of_In, List.in_map_iff.
  intros (wire & Hname & [Hin Hport]%List.filter_In).
  apply (List.find_none _ _ Hfind) in Hin. by rewrite Hport, bool_decide_eq_true_2 in Hin.
Qed.

(** X18. [get_ports] with a port name answers membership in the list that
    [get_ports] without a name returns: the result is the name when it is
    one of the ports and the empty string otherwise, with one log line
    saying which.  Nothing but the result and the log changes. *)
Theorem get_ports_finds_port (arg0 p : string) (s : Session) (top : Module_) (o : Tcl_Obj) :
  top_module (design s) = Some top ->
  tcl_interp s = Some o ->
  exists s',
    GetPortsCmd_execute [arg0; p] s = (s', Done tt)
    /\ tcl_interp s'
       = Some (Tcl_StringObj (if bool_decide (p ∈ port_names top) then p else ""))
    /\ log_output s'
       = log_output s
           ++ [Log (if bool_decide (p ∈ port_names top) then p +:+ nl
                    else "Error:: port " +:+ p +:+ " not exist" +:+ nl)]
    /\ design s' = design s /\ clocks_state s' = clocks_state s
    /\ calls s' = calls s /\ logical_to_wire_map s' = logical_to_wire_map s.
Proof.
  intros Htop Hinterp. unfold GetPortsCmd_execute. cmd_unfold. cbn [design].
  rewrite Htop. unfold Tcl_SetObjResult. cmd_unfold.
  destruct (find_port p top) as [wire|] eqn:Hfind.
  - apply find_port_Some in Hfind as [Hname Hin].
    rewrite (bool_decide_eq_true_2 _ Hin), Hname.
    cbn [tcl_interp add_log]. rewrite Hinterp. by eexists.
  - apply find_port_None in Hfind.
    rewrite (bool_decide_eq_false_2 _ Hfind).
    cbn [tcl_interp add_log]. rewrite Hinterp. by eexists.
Qed.


(** ** Properties of [write_sdc] *)

Lemma parse_write_sdc_flag rest :
  forall st,
    (parse_write_sdc rest st).1
    = st.1 || match rest with
              | arg :: _ :: _ => bool_decide (arg = "-include_propagated_clocks")
              | _ => false
              end.
Proof.
  induction rest as [|arg|arg value rest IH2 IH1] using list_ind_pairs; intros st.
  - cbn. by rewrite orb_false_r.
  - cbn. by rewrite orb_false_r.
  - rewrite parse_write_sdc_step.
    destruct (bool_decide (arg = "-include_propagated_clocks")).
    + rewrite IH1. cbn [fst orb]. by rewrite orb_true_r.
    + by rewrite orb_false_r.
Qed.

(** X20. A successful [write_sdc] has left its last argument to
    [extra_args] as the file name, and has asked the writer for the
    propagated clocks exactly when the word after the command name is
    [-include_propagated_clocks] and another argument follows: the switch
    in last position is taken for the file name. *)
Theorem write_sdc_reads_the_switch (args : list string) (s s' : Session) (text : string) :
  WriteSdcCmd_execute Backend_extra_args SdcWriter_WriteSdc args s = (s', Done text) ->
  exists argidx,
    1 <= argidx < length args
    /\ Backend_extra_args args argidx = Done tt
    /\ SdcWriter_WriteSdc (design s) (clocks_state s)
         ((3 <=? length args)
          && bool_decide (args !! 1 = Some "-include_propagated_clocks"))
       = Done text
    /\ s' = add_log (Log (nl +:+ "Writing out clock constraints file(SDC)" +:+ nl)) s.
Proof.
  unfold WriteSdcCmd_execute. cmd_unfold.
  destruct (Nat.ltb_spec (length args) 2) as [?|Hlen]; [done|].
  cbn [design clocks_state add_log].
  destruct (Backend_extra_args _ _) as [[]|e] eqn:Hextra; [|done].
  destruct (SdcWriter_WriteSdc _ _ _) as [text'|e] eqn:Hwrite; [|done].
  intros Hexec. inversion Hexec; subst.
  exists (parse_write_sdc (drop 1 args) (false, 1)).2.
  destruct args as [|arg0 rest]; [cbn in Hlen; lia|].
  change (drop 1 (arg0 :: rest)) with rest in *. cbn [length] in *.
  split_and!; [| |done| |done].
  - pose proof (parse_write_sdc_argidx rest (false, 1)) as H. cbn [snd] in H. lia.
  - pose proof (parse_write_sdc_argidx rest (false, 1)) as H. cbn [snd] in H. lia.
  - rewrite parse_write_sdc_flag in Hwrite. cbn [fst orb] in Hwrite.
    rewrite <- Hwrite. f_equal.
    destruct rest as [|arg [|value rest]]; [done|done|].
    change (3 <=? S (length (arg :: value :: rest))) with true.
    cbn [andb]. apply bool_decide_ext. split.
    + intros H. simpl in H. by injection H.
    + by intros ->.
Qed.

(** ** The Tcl commands *)


End CommandProperties.

(** * Properties of the registry and of the propagation engine *)

Section EngineProperties.

Import ClockRegistry PropagationEngine.

Lemma extends_propagated_refl r : extends_propagated r r.
Proof. exists []. by rewrite app_nil_r. Qed.

Lemma extends_propagated_trans r1 r2 r3 :
  extends_propagated r1 r2 -> extends_propagated r2 r3 -> extends_propagated r1 r3.
Proof.
  intros (l1 & -> & H1) (l2 & -> & H2). exists (l1 ++ l2).
  split; [by rewrite (assoc_L (++))|by apply Forall_app].
Qed.

Lemma RemoveAllOfKind_idemp k r :
  RemoveAllOfKind k (RemoveAllOfKind k r) = RemoveAllOfKind k r.
Proof.
  unfold RemoveAllOfKind. induction r as [|c r IH]; [done|].
  cbn [List.filter]. destruct (negb _) eqn:Hc; [|done].
  cbn [List.filter]. by rewrite Hc, IH.
Qed.

Lemma RemoveAllOfKind_all k l :
  Forall (fun c => kind c = k) l -> RemoveAllOfKind k l = [].
Proof.
  unfold RemoveAllOfKind. induction 1 as [|c l Hc _ IH]; [done|].
  cbn [List.filter]. by rewrite bool_decide_eq_true_2.
Qed.

Lemma RemoveAllOfKind_app k r l :
  RemoveAllOfKind k (r ++ l) = RemoveAllOfKind k r ++ RemoveAllOfKind k l.
Proof. apply List.filter_app. Qed.

(** Discarding the [PROPAGATED] clocks undoes an extension of a registry
    that held none. *)
Lemma RemoveAllOfKind_extends r r' :
  extends_propagated (RemoveAllOfKind PROPAGATED r) r' ->
  RemoveAllOfKind PROPAGATED r' = RemoveAllOfKind PROPAGATED r.
Proof.
  intros (l & -> & Hl).
  by rewrite RemoveAllOfKind_app, RemoveAllOfKind_idemp,
             (RemoveAllOfKind_all _ _ Hl), app_nil_r.
Qed.

(** *** The traversal has rounds enough *)

Lemma filter_length_mono {A} (P P' : A -> bool) (l : list A) :
  (forall y, P' y = true -> P y = true) ->
  length (List.filter P' l) <= length (List.filter P l).
Proof.
  intros Himp. induction l as [|y l IH]; [done|]. cbn [List.filter].
  destruct (P' y) eqn:HP'.
  - rewrite (Himp y HP'). cbn [length]. lia.
  - destruct (P y); cbn [length]; lia.
Qed.

Lemma filter_length_lt {A} (P P' : A -> bool) (l : list A) (x : A) :
  (forall y, P' y = true -> P y = true) ->
  In x l -> P x = true -> P' x = false ->
  length (List.filter P' l) < length (List.filter P l).
Proof.
  intros Himp Hin HP HP'. induction l as [|y l IH]; [done|].
  pose proof (filter_length_mono P P' l Himp) as Hle.
  cbn [List.filter]. destruct Hin as [->|Hin].
  - rewrite HP, HP'. cbn [length]. lia.
  - specialize (IH Hin). destruct (P' y) eqn:HP'y.
    + rewrite (Himp y HP'y). cbn [length]. lia.
    + destruct (P y); cbn [length]; lia.
Qed.

(** A node the traversal goes on from is an output node it had not
    visited. *)
Lemma fresh_unvisited cells (visited frontier : list string) x :
  In x (List.filter (fun n => bool_decide (n ∉ visited))
                    (remove_dups (transparent_fanout cells frontier))) ->
  In x (List.map cell_output cells) /\ x ∉ visited.
Proof.
  intros [Hin Hnew]%List.filter_In. split; [|by apply bool_decide_eq_true in Hnew].
  apply (proj2 (list_elem_of_In _ _)) in Hin.
  apply (proj1 (elem_of_remove_dups _ _)) in Hin.
  apply (proj1 (list_elem_of_In _ _)) in Hin.
  unfold transparent_fanout in Hin.
  apply List.in_map_iff in Hin as (c & <- & [Hc _]%List.filter_In).
  by apply List.in_map.
Qed.

Lemma bfs_rounds cells n :
  forall m visited frontier,
    length (unvisited cells visited) < n ->
    length (unvisited cells visited) < m ->
    bfs n cells visited frontier = bfs m cells visited frontier.
Proof.
  induction n as [|n IH]; intros m visited frontier Hn Hm; [lia|].
  destruct m as [|m]; [lia|]. cbn [bfs].
  destruct (List.filter _ (remove_dups _)) as [|x fresh] eqn:Hfresh; [done|].
  assert (Hx : In x (List.map cell_output cells) /\ x ∉ visited).
  { apply (fresh_unvisited cells visited frontier). rewrite Hfresh. by left. }
  destruct Hx as [Hout Hnew].
  assert (Hlt : length (unvisited cells (visited ++ x :: fresh))
                < length (unvisited cells visited)).
  { apply (filter_length_lt _ _ _ x); [|done|by apply bool_decide_eq_true_2|].
    - intros y Hy%bool_decide_eq_true. apply bool_decide_eq_true_2.
      intros Hin. apply Hy, elem_of_app. by left.
    - apply bool_decide_eq_false_2. intros Hnot. apply Hnot, elem_of_app.
      right. by left. }
  by rewrite (IH m) by lia.
Qed.

(** More rounds than the module has cells change nothing: the bound the
    passes use never cuts a traversal short. *)
Lemma bfs_rounds_enough cells visited frontier n :
  length cells < n ->
  bfs n cells visited frontier = bfs (S (length cells)) cells visited frontier.
Proof.
  intros Hn.
  assert (Hle : length (unvisited cells visited) <= length cells).
  { unfold unvisited. rewrite <- (List.length_map cell_output cells).
    apply List.filter_length_le. }
  apply bfs_rounds; lia.
Qed.

(** *** The passes append [PROPAGATED] clocks and nothing else *)

Lemma foldl_preserves {A B} (P : A -> Prop) (f : A -> B -> A) (l : list B) :
  (forall a b, P a -> P (f a b)) -> forall a, P a -> P (foldl f a l).
Proof.
  intros Hf. induction l as [|b l IH]; intros a Ha; [done|].
  cbn [foldl]. by apply IH, Hf.
Qed.

Lemma record_clock_extends top period rising falling st node :
  extends_propagated st.1 (record_clock top period rising falling st node).1.
Proof.
  unfold record_clock.
  destruct (List.find _ _) as [wire|]; [|apply extends_propagated_refl].
  destruct (FindByNode wire st.1) as [|existing ?].
  - destruct (Get node st.1); [apply extends_propagated_refl|].
    eexists. split; [done|]. by apply Forall_singleton.
  - destruct (Float32.eqb _ _); apply extends_propagated_refl.
Qed.

Lemma record_clocks_extends top period rising falling nodes r :
  forall st,
    extends_propagated r st.1 ->
    extends_propagated r (foldl (record_clock top period rising falling) st nodes).1.
Proof.
  apply (foldl_preserves (fun st => extends_propagated r st.1)).
  intros st node Hst.
  eapply extends_propagated_trans; [done|apply record_clock_extends].
Qed.

Lemma transparent_pass_extends top r w :
  extends_propagated r (transparent_pass top r w).1.
Proof.
  unfold transparent_pass.
  apply (foldl_preserves (fun st => extends_propagated r st.1.1));
    [|apply extends_propagated_refl].
  intros st c Hst. unfold transparent_step.
  destruct (bfs _ _ _ _) as [arrivals visited]. cbn [fst].
  by apply record_clocks_extends.
Qed.

Lemma divider_pass_extends top r w :
  extends_propagated r (divider_pass top r w).1.
Proof.
  unfold divider_pass.
  apply (foldl_preserves (fun st => extends_propagated r st.1));
    [|apply extends_propagated_refl].
  intros st c Hst.
  apply (foldl_preserves (fun st => extends_propagated r st.1)); [|done].
  intros st' divider Hst'. unfold divide.
  eapply extends_propagated_trans; [done|apply record_clock_extends].
Qed.

(** *** The passes keep the names of the registry unique *)

Lemma Get_None name r : Get name r = None -> name ∉ List.map clock_name r.
Proof.
  unfold Get. induction r as [|c r IH]; cbn [List.find List.map].
  - intros _. apply not_elem_of_nil.
  - case_bool_decide; [done|]. intros Hfind.
    apply not_elem_of_cons. split; [done|by apply IH].
Qed.

Lemma RemoveAllOfKind_unique_names k r :
  unique_names r -> unique_names (RemoveAllOfKind k r).
Proof.
  unfold unique_names, RemoveAllOfKind. induction r as [|c r IH]; [done|].
  cbn [List.map List.filter]. intros [Hc Hr]%NoDup_cons.
  destruct (negb _); [|by apply IH].
  cbn [List.map]. apply NoDup_cons. split; [|by apply IH].
  intros Hin. apply Hc. clear -Hin.
  induction r as [|c' r IH]; [done|]. cbn [List.filter List.map] in *.
  destruct (negb _); [|by right; apply IH].
  cbn [List.map] in Hin. apply elem_of_cons in Hin as [->|Hin]; [by left|].
  right. by apply IH.
Qed.

Lemma record_clock_unique_names top period rising falling st node :
  unique_names st.1 -> unique_names (record_clock top period rising falling st node).1.
Proof.
  intros Hst. unfold record_clock.
  destruct (List.find _ _) as [wire|]; [|done].
  destruct (FindByNode wire st.1) as [|existing ?].
  - destruct (Get node st.1) eqn:Hget; [done|]. cbn [fst].
    unfold unique_names. rewrite List.map_app. apply NoDup_app.
    split_and!; [done| |apply NoDup_singleton].
    intros name Hin [->|[]%elem_of_nil]%elem_of_cons.
    by apply Get_None in Hget.
  - by destruct (Float32.eqb _ _).
Qed.

Lemma transparent_pass_unique_names top r w :
  unique_names r -> unique_names (transparent_pass top r w).1.
Proof.
  intros Hr. unfold transparent_pass.
  apply (foldl_preserves (fun st => unique_names st.1.1)); [|done].
  intros st c Hst. unfold transparent_step.
  destruct (bfs _ _ _ _) as [arrivals visited]. cbn [fst].
  apply (foldl_preserves (fun st => unique_names st.1)); [|done].
  intros. by apply record_clock_unique_names.
Qed.

Lemma divider_pass_unique_names top r w :
  unique_names r -> unique_names (divider_pass top r w).1.
Proof.
  intros Hr. unfold divider_pass.
  apply (foldl_preserves (fun st => unique_names st.1)); [|done].
  intros st c Hst.
  apply (foldl_preserves (fun st => unique_names st.1)); [|done].
  intros. unfold divide. by apply record_clock_unique_names.
Qed.

(** *** The clocks a pass derives do not depend on the warnings so far *)

Lemma record_clock_clocks top period rising falling st st' node :
  st.1 = st'.1 ->
  (record_clock top period rising falling st node).1
  = (record_clock top period rising falling st' node).1.
Proof.
  intros Heq. unfold record_clock. rewrite <- Heq.
  destruct (List.find _ _) as [wire|]; [|done].
  destruct (FindByNode wire st.1) as [|existing ?].
  - by destruct (Get node st.1).
  - by destruct (Float32.eqb _ _).
Qed.

Lemma foldl_related {A B} (Q : A -> A -> Prop) (f : A -> B -> A) (l : list B) :
  (forall a a' b, Q a a' -> Q (f a b) (f a' b)) ->
  forall a a', Q a a' -> Q (foldl f a l) (foldl f a' l).
Proof.
  intros Hf. induction l as [|b l IH]; intros a a' Ha; [done|].
  cbn [foldl]. by apply IH, Hf.
Qed.

Lemma transparent_pass_clocks top r w w' :
  (transparent_pass top r w).1 = (transparent_pass top r w').1.
Proof.
  unfold transparent_pass.
  apply (foldl_related (fun st st' => st.1.1 = st'.1.1 /\ st.2 = st'.2) (transparent_step top) r);
    [|done].
  intros st st' c [Hclocks Hvisited]. unfold transparent_step. rewrite <- Hvisited.
  destruct (bfs _ _ _ _) as [arrivals visited]. cbn [fst snd]. split; [|done].
  apply (foldl_related (fun st st' : list Clock * list string => st.1 = st'.1)); [|done].
  intros. by apply record_clock_clocks.
Qed.

Lemma divider_pass_clocks top r w w' :
  (divider_pass top r w).1 = (divider_pass top r w').1.
Proof.
  unfold divider_pass.
  apply (foldl_related (fun st st' : list Clock * list string => st.1 = st'.1)); [|done].
  intros st st' c Hst.
  apply (foldl_related (fun st st' : list Clock * list string => st.1 = st'.1)); [|done].
  intros. unfold divide. by apply record_clock_clocks.
Qed.

Lemma derive_extends top base : extends_propagated base (derive top base).
Proof.
  unfold derive. eapply extends_propagated_trans;
    [apply transparent_pass_extends|apply divider_pass_extends].
Qed.

Lemma derive_unique_names top r :
  unique_names r -> unique_names (derive top (RemoveAllOfKind PROPAGATED r)).
Proof.
  intros Hr. unfold derive.
  by apply divider_pass_unique_names, transparent_pass_unique_names,
           RemoveAllOfKind_unique_names.
Qed.

(** A second run starts from the same clocks as the first. *)
Lemma derive_idempotent top r :
  derive top (RemoveAllOfKind PROPAGATED (derive top (RemoveAllOfKind PROPAGATED r)))
  = derive top (RemoveAllOfKind PROPAGATED r).
Proof. by rewrite (RemoveAllOfKind_extends _ _ (derive_extends _ _)). Qed.

Context `{host : Host}.

(** A run of both sub-passes never throws and leaves the clocks derived
    from the clocks that are not [PROPAGATED]. *)
Lemma Run_both (d : Design) (top : Module_) (r : Registry) :
  top_module d = Some top ->
  exists r1 r2,
    Run (new_Propagation BufferPropagation d) r = Done r1
    /\ Run (new_Propagation ClockDividerPropagation d) r1 = Done r2
    /\ clocks r2 = derive top (RemoveAllOfKind PROPAGATED (clocks r)).
Proof.
  intros Htop. unfold Run. cbn [pass_design pass_class]. rewrite Htop.
  eexists _, _. split_and!; [done|done|].
  cbn [clocks warnings]. unfold derive.
  rewrite (divider_pass_clocks _ _ _ []).
  by rewrite (transparent_pass_clocks _ _ _ []).
Qed.

(** ** Propagation twice in a row *)

(** C1. With the propagation engine of the specification, and a design
    that has a top module, [propagate_clocks] succeeds, and run again on
    the unchanged design it succeeds and leaves the same clocks: the
    registry after the second run is the registry after the first, and so
    is its [PROPAGATED] part.  Each run leaves what is derived from the
    clocks that are not [PROPAGATED], those present before being
    discarded; names stay unique when they were. *)
Theorem propagate_clocks_idempotent (args1 args2 : list string)
    (s : Session Registry) (top : Module_) :
  top_module (design s) = Some top ->
  exists s1 s2,
    PropagateClocksCmd_execute args1 s = (s1, Done tt)
    /\ PropagateClocksCmd_execute args2 s1 = (s2, Done tt)
    /\ design s1 = design s
    /\ clocks (clocks_state s1)
       = derive top (RemoveAllOfKind PROPAGATED (clocks (clocks_state s)))
    /\ clocks (clocks_state s2) = clocks (clocks_state s1)
    /\ All (Some PROPAGATED) (clocks (clocks_state s2))
       = All (Some PROPAGATED) (clocks (clocks_state s1))
    /\ (unique_names (clocks (clocks_state s)) ->
        unique_names (clocks (clocks_state s2))).
Proof.
  intros Htop.
  assert (Hrun : forall args (s : Session Registry),
             top_module (design s) = Some top ->
             exists s',
               PropagateClocksCmd_execute args s = (s', Done tt)
               /\ design s' = design s
               /\ clocks (clocks_state s')
                  = derive top (RemoveAllOfKind PROPAGATED (clocks (clocks_state s)))).
  { clear. intros args s Htop.
    rewrite PropagateClocksCmd_execute_result. unfold propagate_clocks_result.
    rewrite Htop.
    destruct (Run_both (design s) top (clocks_state s) Htop)
      as (r1 & r2 & Hbuf & Hdiv & Hclocks).
    cbn [Propagation_Run Clocks_UpdateAbc9DelayTarget spec_lib UpdateAbc9DelayTarget].
    rewrite Hbuf, Hdiv. eexists. split; [done|].
    by destruct (1 <? length args). }
  destruct (Hrun args1 s Htop) as (s1 & Hexec1 & Hdesign1 & Hclocks1).
  assert (Htop1 : top_module (design s1) = Some top) by by rewrite Hdesign1.
  destruct (Hrun args2 s1 Htop1) as (s2 & Hexec2 & Hdesign2 & Hclocks2).
  assert (Heq : clocks (clocks_state s2) = clocks (clocks_state s1)).
  { rewrite Hclocks2, Hclocks1. apply derive_idempotent. }
  exists s1, s2. split_and!; [done|done|done|done|done|by rewrite Heq|].
  intros Hunique. rewrite Heq, Hclocks1. by apply derive_unique_names.
Qed.

End EngineProperties.

(** ** The properties on the example design *)

Section Examples.

Import ClockRegistry PropagationEngine Example.

Lemma propagate_clocks_idempotent_witness :
  exists s1 s2,
    PropagateClocksCmd_execute ["propagate_clocks"] clk_session = (s1, Done tt)
    /\ PropagateClocksCmd_execute ["propagate_clocks"] s1 = (s2, Done tt)
    /\ design s1 = design clk_session
    /\ clocks (clocks_state s1)
       = derive top (RemoveAllOfKind PROPAGATED (clocks (clocks_state clk_session)))
    /\ clocks (clocks_state s2) = clocks (clocks_state s1)
    /\ All (Some PROPAGATED) (clocks (clocks_state s2))
       = All (Some PROPAGATED) (clocks (clocks_state s1))
    /\ (unique_names (clocks (clocks_state clk_session)) ->
        unique_names (clocks (clocks_state s2))).
Proof.
  apply (propagate_clocks_idempotent ["propagate_clocks"] ["propagate_clocks"]
           clk_session top).
  reflexivity.
Defined.

(** C2. On the example design, after [create_clock -period 10 clk] the
    clock library lists the clock [clk] and the query of the specification
    returns it, while [get_clocks] returns the empty list. *)
Theorem get_clocks_misses_created_clock :
  let s := (GetClocksCmd_execute ["get_clocks"] clk_session).1 in
  Clocks_GetClocks (design clk_session) (clocks_state clk_session) = [("clk", clk)]
  /\ spec_GetClocks [] [] [("clk", clk)] = ["clk"]
  /\ (GetClocksCmd_execute ["get_clocks"] clk_session).2 = Done tt
  /\ tcl_interp s = Some (Tcl_ListObj []).
Proof. vm_compute. done. Qed.

Lemma create_clock_default_waveform_witness :
  exists l name wires,
    parse_create_clock (drop 1 create_clk) initial_locals = Done l
    /\ Float32.leb (period l) Float32.zero = false
    /\ calls clk_session
       = calls (start full_design)
           ++ [Call_Clock_Add name wires (period l) Float32.zero
                              (Float32.div (period l) Float32.two) EXPLICIT]
    /\ Clock_Add name wires (period l) Float32.zero
                 (Float32.div (period l) Float32.two) EXPLICIT
                 (clocks_state (start full_design))
       = Done (clocks_state clk_session)
    /\ (period l = Float32.ten ->
        Float32.div (period l) Float32.two = Float32.five).
Proof.
  apply (create_clock_default_waveform create_clk (start full_design) clk_session).
  - unfold create_clk. rewrite !not_elem_of_cons.
    split_and!; [done|done|done|done|apply not_elem_of_nil].
  - vm_compute. reflexivity.
Defined.

(** C4, as stated, fails on a call of two words: no [-period] is given,
    the period is the initial [0], and the error is not [InvalidPeriod]. *)
Lemma create_clock_short_call_not_InvalidPeriod :
  exists l,
    parse_create_clock (drop 1 ["create_clock"; "clk"]) initial_locals = Done l
    /\ Float32.leb (period l) Float32.zero = true
    /\ (CreateClockCmd_execute ["create_clock"; "clk"] (start full_design)).2
       = Thrown UsageError_create_clock
    /\ UsageError_create_clock <> InvalidPeriod.
Proof. exists initial_locals. vm_compute. done. Qed.

Lemma create_clock_nonpositive_period_witness :
  CreateClockCmd_execute ["create_clock"; "-period"; "fast"] (start full_design)
  = (start full_design, Thrown UsageError_create_clock)
  /\ CreateClockCmd_execute ["create_clock"; "-period"; "0"; "clk"] (start full_design)
     = (start full_design, Thrown InvalidPeriod)
  /\ CreateClockCmd_execute ["create_clock"; "-name"; "sys"; "clk"] (start full_design)
     = (start full_design, Thrown InvalidPeriod).
Proof.
  split_and!.
  - apply (create_clock_nonpositive_period
             ["create_clock"; "-period"; "fast"] (start full_design)).
    cbn. lia.
  - apply (proj1 (proj2 (create_clock_nonpositive_period
                           ["create_clock"; "-period"; "0"; "clk"] (start full_design)))
             ltac:(cbn; lia)
             (mkLocals 3 "" false Float32.zero Float32.zero Float32.zero));
      reflexivity.
  - apply (create_clock_nonpositive_period
             ["create_clock"; "-name"; "sys"; "clk"] (start full_design)).
    + rewrite !not_elem_of_cons.
      split_and!; [done|done|done|done|apply not_elem_of_nil].
    + cbn. lia.
Defined.

Lemma propagate_clocks_no_top_module_witness :
  exists s',
    PropagateClocksCmd_execute ["propagate_clocks"] (start empty_design)
    = (s', Thrown NoTopModule)
    /\ calls s' = calls (start empty_design)
    /\ clocks_state s' = clocks_state (start empty_design)
    /\ design s' = design (start empty_design)
    /\ (tcl_command propagate_clocks ["propagate_clocks"] (start empty_design)).2
       = TCL_ERROR.
Proof.
  apply (propagate_clocks_no_top_module ["propagate_clocks"] (start empty_design)).
  reflexivity.
Defined.

Lemma propagate_clocks_pass_order_witness :
  let s' := (PropagateClocksCmd_execute ["propagate_clocks"] clk_session).1 in
  calls s' = calls clk_session ++ [Call_Run BufferPropagation;
                                   Call_Run ClockDividerPropagation;
                                   Call_UpdateAbc9DelayTarget]
  /\ exists r1 r2,
      Propagation_Run (new_Propagation BufferPropagation (design clk_session))
                      (clocks_state clk_session) = Done r1
      /\ Propagation_Run (new_Propagation ClockDividerPropagation (design clk_session)) r1
         = Done r2
      /\ Clocks_UpdateAbc9DelayTarget (design clk_session) r2 = Done (clocks_state s').
Proof.
  apply (propagate_clocks_pass_order ["propagate_clocks"] clk_session).
  vm_compute. reflexivity.
Defined.

Lemma create_clock_empty_selection_witness :
  exists s',
    CreateClockCmd_execute create_nowire (start full_design)
    = (s', Thrown SelectionEmptyError)
    /\ s' = set_design nowire_design (start full_design)
    /\ clocks_state s' = clocks_state (start full_design)
    /\ calls s' = calls (start full_design).
Proof.
  apply (create_clock_empty_selection create_nowire (start full_design)
           (mkLocals 3 "" false Float32.zero Float32.zero Float32.ten) nowire_design).
  - cbn. lia.
  - reflexivity.
  - reflexivity.
  - reflexivity.
  - vm_compute. reflexivity.
  - vm_compute. reflexivity.
Defined.


Lemma get_clocks_no_clocks_witness :
  exists s' lines,
    GetClocksCmd_execute ["get_clocks"] (start full_design) = (s', Done tt)
    /\ tcl_interp s' = Some (Tcl_ListObj [])
    /\ log_output s' = log_output (start full_design) ++ [no_clocks_warning]
                       ++ List.map Log lines ++ [no_clocks_after_warning]
    /\ (tcl_command get_clocks ["get_clocks"] (start full_design)).2 = TCL_OK.
Proof.
  apply (get_clocks_no_clocks ["get_clocks"] (start full_design)
           (mkGetClocksLocals 1 false []) (Tcl_StringObj ""));
    reflexivity.
Defined.

Lemma get_clocks_omits_created_clocks_witness :
  let s1 := run_script create_and_propagate (start full_design) in
  let s' := (GetClocksCmd_execute ["get_clocks"] s1).1 in
  tcl_interp s' =
    Some (Tcl_ListObj
            (omap (fun clock => logical_to_wire_map s1 !! id2cstr (wire_name clock.2))
                  (Clocks_GetClocks (design s1) (clocks_state s1))))
  /\ logical_to_wire_map s1 = ∅
  /\ tcl_interp s' = Some (Tcl_ListObj []).
Proof.
  apply (get_clocks_omits_created_clocks create_and_propagate ["get_clocks"]
           (start full_design)).
  - reflexivity.
  - vm_compute. reflexivity.
Defined.

(** *** The further properties on the example design *)

Lemma AddWirePrefix_targets_witness :
  length (AddWirePrefix create_clk 3) = length create_clk
  /\ take 3 (AddWirePrefix create_clk 3) = take 3 create_clk
  /\ drop 3 (AddWirePrefix create_clk 3)
     = List.map (fun w => "w:" +:+ w) (drop 3 create_clk)
  /\ Forall (fun arg => is_switch arg = false) (drop 3 (AddWirePrefix create_clk 3)).
Proof. apply (AddWirePrefix_targets create_clk 3). cbn. lia. Defined.

Lemma option_loops_stay_in_bounds_witness :
  (forall l, parse_create_clock (drop 1 create_clk) initial_locals = Done l ->
             1 <= argidx l <= length create_clk)
  /\ (forall l, parse_get_clocks (drop 1 create_clk) (mkGetClocksLocals 1 false []) = Done l ->
                1 <= gc_argidx l <= length create_clk)
  /\ 1 <= (parse_write_sdc (drop 1 create_clk) (false, 1)).2 <= length create_clk.
Proof. apply (option_loops_stay_in_bounds create_clk). unfold create_clk. discriminate. Defined.

Lemma extract_list_concat_witness :
  extract_list (String.concat " " ["clk"; "clk_div"]) = ["clk"; "clk_div"].
Proof.
  apply (extract_list_concat ["clk"; "clk_div"]).
  repeat (constructor; [reflexivity|]). constructor.
Defined.

Lemma get_clocks_ignores_arguments_witness :
  GetClocksCmd_execute ["get_clocks"] clk_session
  = GetClocksCmd_execute ["get_clocks"; "-include_generated_clocks"; "-of"; "clk_buf"; "clk*"]
                         clk_session.
Proof.
  apply (get_clocks_ignores_arguments
           ["get_clocks"]
           ["get_clocks"; "-include_generated_clocks"; "-of"; "clk_buf"; "clk*"]
           clk_session
           (mkGetClocksLocals 1 false [])
           (mkGetClocksLocals 4 true ["clk_buf"]));
    vm_compute; reflexivity.
Defined.


Lemma get_clocks_after_create_clock_with_name_witness :
  exists names,
    tcl_interp (GetClocksCmd_execute ["get_clocks"]
                  (create_clock_with_name "sys_clk" "clk" clk_session).1).1
    = Some (Tcl_ListObj names)
    /\ names = omap (fun clock =>
                       if bool_decide (id2cstr (wire_name clock.2) = "clk")
                       then Some "sys_clk"
                       else logical_to_wire_map clk_session !! id2cstr (wire_name clock.2))
                    (Clocks_GetClocks (design clk_session) (clocks_state clk_session))
    /\ (forall clock,
          clock ∈ Clocks_GetClocks (design clk_session) (clocks_state clk_session) ->
          id2cstr (wire_name clock.2) = "clk" -> "sys_clk" ∈ names).
Proof.
  apply (get_clocks_after_create_clock_with_name "sys_clk" "clk" ["get_clocks"] clk_session).
  vm_compute. reflexivity.
Defined.

Lemma create_clock_default_name_witness :
  exists wire wires period rising falling,
    calls clk_session
    = calls (start full_design)
        ++ [Call_Clock_Add (unescape_id (wire_name wire)) (wire :: wires)
                           period rising falling EXPLICIT].
Proof.
  apply (create_clock_default_name create_clk (start full_design) clk_session).
  - unfold create_clk. rewrite !not_elem_of_cons.
    split_and!; [done|done|done|done|apply not_elem_of_nil].
  - vm_compute. reflexivity.
Defined.

Lemma create_clock_bad_number_witness :
  CreateClockCmd_execute create_bad_period (start full_design)
  = (start full_design, Thrown (std_exception "stof"))
  /\ (exists i value,
        create_bad_period !! i = Some "-period"
        /\ create_bad_period !! S i = Some value
        /\ stof value = Thrown (std_exception "stof"))
  /\ (tcl_command create_clock create_bad_period (start full_design)).2 = TCL_ERROR.
Proof.
  apply (create_clock_bad_number create_bad_period (start full_design)
           (std_exception "stof")).
  - cbn. lia.
  - vm_compute. reflexivity.
Defined.

Lemma auto_select_selects_witness :
  selected_member (auto_select "\clk" cell_selected_design).1 top clk = true.
Proof.
  apply (auto_select_selects "\clk" cell_selected_design top clk).
  - cbn. constructor.
  - vm_compute. reflexivity.
  - cbn. constructor.
  - left. reflexivity.
Defined.

Lemma create_clock_targets_selected_witness :
  exists name wires period rising falling,
    calls clk_session
    = calls (start full_design)
        ++ [Call_Clock_Add name wires period rising falling EXPLICIT]
    /\ Forall (fun w => exists m, m ∈ modules_ (design clk_session) /\ w ∈ wires_ m
                                  /\ selected_module (design clk_session) m = true
                                  /\ selected_member (design clk_session) m w = true)
              wires.
Proof.
  apply (create_clock_targets_selected create_clk (start full_design) clk_session).
  vm_compute. reflexivity.
Defined.

Lemma propagate_clocks_failures_witness :
  let s := start empty_design in
  let buffer := new_Propagation BufferPropagation (design s) in
  let divider := new_Propagation ClockDividerPropagation (design s) in
  (top_module (design s) = None /\ NoTopModule = NoTopModule
   /\ calls s = calls s /\ clocks_state s = clocks_state s)
  \/ (is_Some (top_module (design s))
      /\ Propagation_Run buffer (clocks_state s) = Thrown NoTopModule
      /\ calls s = calls s ++ [Call_Run BufferPropagation])
  \/ (exists r1,
        is_Some (top_module (design s))
        /\ Propagation_Run buffer (clocks_state s) = Done r1
        /\ Propagation_Run divider r1 = Thrown NoTopModule
        /\ calls s = calls s ++ [Call_Run BufferPropagation;
                                 Call_Run ClockDividerPropagation])
  \/ (exists r1 r2,
        is_Some (top_module (design s))
        /\ Propagation_Run buffer (clocks_state s) = Done r1
        /\ Propagation_Run divider r1 = Done r2
        /\ Clocks_UpdateAbc9DelayTarget (design s) r2 = Thrown NoTopModule
        /\ calls s = calls s ++ [Call_Run BufferPropagation;
                                 Call_Run ClockDividerPropagation;
                                 Call_UpdateAbc9DelayTarget]).
Proof.
  intros s.
  apply (propagate_clocks_failures ["propagate_clocks"] s s NoTopModule).
  vm_compute. reflexivity.
Defined.

Lemma get_ports_lists_ports_witness :
  exists s' names,
    GetPortsCmd_execute ["get_ports"] (start full_design) = (s', Done tt)
    /\ tcl_interp s' = Some (Tcl_ListObj names)
    /\ names = List.map (fun wire => id2cstr (wire_name wire))
                        (List.filter (fun wire => negb (port_id wire =? 0)%Z) (wires_ top))
    /\ (forall n, n ∈ names <-> exists wire, wire ∈ wires_ top /\ port_id wire <> 0%Z
                                             /\ id2cstr (wire_name wire) = n)
    /\ log_output s'
       = log_output (start full_design)
           ++ (if bool_decide (names = [])
               then [Log ("Error:: No ports found for 'get_ports'" +:+ nl)] else [])
           ++ List.map (fun n => Log (Tcl_GetString (Tcl_StringObj n) +:+ nl)) names
    /\ design s' = design (start full_design)
    /\ clocks_state s' = clocks_state (start full_design)
    /\ calls s' = calls (start full_design)
    /\ logical_to_wire_map s' = logical_to_wire_map (start full_design).
Proof.
  apply (get_ports_lists_ports "get_ports" (start full_design) top (Tcl_StringObj ""));
    reflexivity.
Defined.

Lemma get_ports_finds_port_witness :
  exists s',
    GetPortsCmd_execute ["get_ports"; "clk"] (start full_design) = (s', Done tt)
    /\ tcl_interp s'
       = Some (Tcl_StringObj (if bool_decide ("clk" ∈ port_names top) then "clk" else ""))
    /\ log_output s'
       = log_output (start full_design)
           ++ [Log (if bool_decide ("clk" ∈ port_names top) then "clk" +:+ nl
                    else "Error:: port " +:+ "clk" +:+ " not exist" +:+ nl)]
    /\ design s' = design (start full_design)
    /\ clocks_state s' = clocks_state (start full_design)
    /\ calls s' = calls (start full_design)
    /\ logical_to_wire_map s' = logical_to_wire_map (start full_design).
Proof.
  apply (get_ports_finds_port "get_ports" "clk" (start full_design) top (Tcl_StringObj ""));
    reflexivity.
Defined.


Lemma write_sdc_reads_the_switch_witness :
  let s := run_script create_and_propagate (start full_design) in
  exists argidx,
    1 <= argidx < length write_all
    /\ example_extra_args write_all argidx = Done tt
    /\ example_WriteSdc (design s) (clocks_state s)
         ((3 <=? length write_all)
          && bool_decide (write_all !! 1 = Some "-include_propagated_clocks"))
       = Done (String.concat nl ["clk"; "\clk_buf"; "\clk_div"])
    /\ (WriteSdcCmd_execute example_extra_args example_WriteSdc write_all s).1
       = add_log (Log (nl +:+ "Writing out clock constraints file(SDC)" +:+ nl)) s.
Proof.
  intros s.
  apply (write_sdc_reads_the_switch example_extra_args example_WriteSdc write_all s
           (WriteSdcCmd_execute example_extra_args example_WriteSdc write_all s).1
           (String.concat nl ["clk"; "\clk_buf"; "\clk_div"])).
  vm_compute. reflexivity.
Defined.

End Examples.
